(** * LogsTable: query routing, paging and export of the admin log browser

    Shallow embedding of [frontend/components/admin/LogsTable.tsx] and of the
    part of the API client ([fetchAPI], [apiClient.getLogs], [APIError]) that
    the component calls.

    Conventions of the embedding.
    - JavaScript numbers that the component handles (ids, offsets, limits,
      totals) are integers; they are modelled as [Z].
    - JavaScript strings are modelled as [string]; the characters the
      serializer cares about (comma, double quote, line feed, [T]) are single
      code units in both worlds.
    - An optional property ([type?: string], [filters?: ...]) is an [option];
      truthiness of an optional string is [truthy].
    - React state is the record [State]; a call of [fetchLogs] is split at its
      [await] into the part that runs when the effect fires and the part that
      runs when the HTTP reply arrives, so that the component is a transition
      system over [Comp]. *)

From Stdlib Require Import ZArith List String Ascii Bool Lia DecimalString.
Import ListNotations.

#[local] Open Scope string_scope.
#[local] Open Scope Z_scope.

(* ------------------------------------------------------------------ *)
(** ** JavaScript primitives used by the component *)

(** [Boolean(s)] for [s : string | undefined]: [undefined] and the empty
    string are falsy. *)
Definition truthy (o : option string) : bool :=
  match o with
  | Some s => negb (s =? EmptyString)%string
  | None => false
  end.

(** [a || b] on optional strings. *)
Definition or_else (a b : option string) : option string :=
  if truthy a then a else b.

(** [Array.prototype.slice(start, end)], negative indices included. *)
Definition slice {A : Type} (l : list A) (start end_ : Z) : list A :=
  let len := Z.of_nat (List.length l) in
  let k := if start <? 0 then Z.max (len + start) 0 else Z.min start len in
  let final := if end_ <? 0 then Z.max (len + end_) 0 else Z.min end_ len in
  firstn (Z.to_nat (final - k)) (skipn (Z.to_nat k) l).

(** [String(n)] for an integer [n]. *)
Definition String_of_number (n : Z) : string :=
  NilZero.string_of_int (Z.to_int n).

(** [cols.join(sep)]. *)
Definition join (sep : string) (cols : list string) : string :=
  String.concat sep cols.

(** [s.split(c)] for a one-character separator. *)
Fixpoint split_on (c : ascii) (s : string) : list string :=
  match s with
  | EmptyString => [EmptyString]
  | String a s' =>
      if Ascii.eqb a c then EmptyString :: split_on c s'
      else match split_on c s' with
           | [] => [String a EmptyString]
           | h :: t => String a h :: t
           end
  end.

(** [s.includes(c)] for a one-character [c]. *)
Fixpoint contains (c : ascii) (s : string) : bool :=
  match s with
  | EmptyString => false
  | String a s' => Ascii.eqb a c || contains c s'
  end.

Definition comma : ascii := ","%char.
Definition dquote : ascii := Ascii.ascii_of_nat 34.
Definition newline : ascii := Ascii.ascii_of_nat 10.

(* ------------------------------------------------------------------ *)
(** ** Data model ([lib/api-client]) *)

Record Position := { start : Z; end_ : Z }.

Record Risk := {
  type : string;
  severity : string;
  match_ : string;
  position : Position;
  explanation : string
}.

(** [risks] is declared [Risk[]], but the component guards against a missing
    array ([log.risks || []], [log.risks?.length ?? 0]); [None] is the missing
    array.  [metadata] is opaque to the component. *)
Record LogEntry := {
  id : Z;
  request_id : string;
  timestamp : string;
  original_prompt : option string;
  modified_prompt : option string;
  original_response : option string;
  modified_response : option string;
  decision : string;
  risks : option (list Risk);
  metadata : list (string * string)
}.

Module LogsResponse.
Record t := {
  logs : list LogEntry;
  total : Z;
  limit : Z;
  offset : Z;
  has_more : bool
}.
End LogsResponse.

Inductive Format := json | csv.

(** The [filters] prop of the component. *)
Module Filters.
Record t := {
  type : option string;
  severity : option string;
  date_from : option string;
  date_to : option string
}.
End Filters.

(** The [params] argument of [apiClient.getLogs]. *)
Module Params.
Record t := {
  type : option string;
  severity : option string;
  date_from : option string;
  date_to : option string;
  limit : option Z;
  offset : option Z;
  format : option Format
}.
End Params.

(** What a rejected promise carries: an [APIError] or any other error
    ([TypeError] of a failed [fetch], [SyntaxError] of [response.json()]). *)
Inductive Exn :=
| APIError (message : string) (statusCode : Z)
| OtherError.

Inductive Result (A : Type) :=
| Return (a : A)
| Throw (e : Exn).
Arguments Return {A} a.
Arguments Throw {A} e.

(** A JavaScript value as this client observes it.  The client does two
    things with the [detail] of an error body: it tests it with [||], which
    looks at its truthiness, and it hands it to [super(message)], which
    converts it to a string.  Any JSON value is covered: a string [s] is
    truthy when not empty and converts to itself, the array [[]] is truthy
    and converts to the empty string, an array of objects is truthy and
    converts to [[object Object]], [null], [false] and [0] are falsy. *)
Record JsValue := { js_truthy : bool; js_String : string }.

(** A string as such a value. *)
Definition js_string (s : string) : JsValue :=
  {| js_truthy := negb (s =? EmptyString)%string; js_String := s |}.

(** [v || fallback], converted to a string, for a [v] that may be
    [undefined]. *)
Definition js_or (v : option JsValue) (fallback : string) : string :=
  match v with
  | Some x => if js_truthy x then js_String x else fallback
  | None => fallback
  end.

(** The body of a reply whose status is not a success, as
    [response.json()] reads it: not JSON at all (the promise rejects), the
    JSON value [null], or any other JSON value, with its [detail] property
    ([None] when it has none: objects without the key, and arrays, strings,
    numbers and booleans, for which [.detail] is [undefined]). *)
Inductive ErrorBody :=
| BodyNotJson
| BodyNull
| BodyJson (detail : option JsValue).

(** What [fetch] gives back for a [/v1/logs] request.
    - [NetworkError]: the promise of [fetch] rejects.
    - [Ok text parsed]: [response.ok]; [text] is the body and [parsed] is the
      body read by [response.json()], [None] when it is not JSON.
    - [NotOk status statusText body]: [!response.ok], with the body. *)
Inductive HttpReply :=
| NetworkError
| Ok (text : string) (parsed : option LogsResponse.t)
| NotOk (status : Z) (statusText : string) (body : ErrorBody).

(** [errorData.detail] after the [try]/[catch] of lines 401-406: the
    [catch] replaces a body that is not JSON by [{ detail: statusText }];
    reading [detail] off [null] throws a [TypeError] ([None]). *)
Definition errorData_detail (statusText : string) (body : ErrorBody)
  : option (option JsValue) :=
  match body with
  | BodyNotJson => Some (Some (js_string statusText))
  | BodyNull => None
  | BodyJson detail => Some detail
  end.

(** [fetchAPI<LogsResponse>(endpoint)], after the reply arrived. *)
Definition fetchAPI (reply : HttpReply) : Result LogsResponse.t :=
  match reply with
  | NetworkError => Throw OtherError
  | NotOk status statusText body =>
      match errorData_detail statusText body with
      | None => Throw OtherError
      | Some detail =>
          Throw (APIError (js_or detail ("API request failed: " ++ statusText)) status)
      end
  | Ok _ (Some r) => Return r
  | Ok _ None => Throw OtherError
  end.

(** [apiClient.getLogs(params)], after the reply arrived. *)
Definition getLogs (params : Params.t) (reply : HttpReply)
  : Result (LogsResponse.t + string) :=
  match Params.format params with
  | Some csv =>
      match reply with
      | NetworkError => Throw OtherError
      | NotOk status statusText _ =>
          Throw (APIError ("Failed to fetch logs: " ++ statusText) status)
      | Ok text _ => Return (inr text)
      end
  | _ =>
      match fetchAPI reply with
      | Return r => Return (inl r)
      | Throw e => Throw e
      end
  end.

(* ------------------------------------------------------------------ *)
(** ** Component state ([useState] cells of [LogsTable]) *)

Record State := {
  logs : list LogEntry;
  loading : bool;
  error : option string;
  total : Z;
  limit : Z;
  offset : Z;
  hasMore : bool;
  clientMode : bool;
  clientAll : list LogEntry
}.

Definition setLogs (v : list LogEntry) (s : State) : State :=
  {| logs := v; loading := loading s; error := error s; total := total s;
     limit := limit s; offset := offset s; hasMore := hasMore s;
     clientMode := clientMode s; clientAll := clientAll s |}.

Definition setLoading (v : bool) (s : State) : State :=
  {| logs := logs s; loading := v; error := error s; total := total s;
     limit := limit s; offset := offset s; hasMore := hasMore s;
     clientMode := clientMode s; clientAll := clientAll s |}.

Definition setError (v : option string) (s : State) : State :=
  {| logs := logs s; loading := loading s; error := v; total := total s;
     limit := limit s; offset := offset s; hasMore := hasMore s;
     clientMode := clientMode s; clientAll := clientAll s |}.

Definition setTotal (v : Z) (s : State) : State :=
  {| logs := logs s; loading := loading s; error := error s; total := v;
     limit := limit s; offset := offset s; hasMore := hasMore s;
     clientMode := clientMode s; clientAll := clientAll s |}.

Definition setOffset (v : Z) (s : State) : State :=
  {| logs := logs s; loading := loading s; error := error s; total := total s;
     limit := limit s; offset := v; hasMore := hasMore s;
     clientMode := clientMode s; clientAll := clientAll s |}.

Definition setHasMore (v : bool) (s : State) : State :=
  {| logs := logs s; loading := loading s; error := error s; total := total s;
     limit := limit s; offset := offset s; hasMore := v;
     clientMode := clientMode s; clientAll := clientAll s |}.

Definition setClientMode (v : bool) (s : State) : State :=
  {| logs := logs s; loading := loading s; error := error s; total := total s;
     limit := limit s; offset := offset s; hasMore := hasMore s;
     clientMode := v; clientAll := clientAll s |}.

Definition setClientAll (v : list LogEntry) (s : State) : State :=
  {| logs := logs s; loading := loading s; error := error s; total := total s;
     limit := limit s; offset := offset s; hasMore := hasMore s;
     clientMode := clientMode s; clientAll := v |}.

(** The initial values of the [useState] cells. *)
Definition initialState : State :=
  {| logs := []; loading := true; error := None; total := 0; limit := 50;
     offset := 0; hasMore := false; clientMode := false; clientAll := [] |}.

(* ------------------------------------------------------------------ *)
(** ** Query routing and the local predicate *)

(** [filters?.type] and friends. *)
Definition filters_type (filters : option Filters.t) : option string :=
  match filters with Some f => Filters.type f | None => None end.
Definition filters_severity (filters : option Filters.t) : option string :=
  match filters with Some f => Filters.severity f | None => None end.
Definition filters_date_from (filters : option Filters.t) : option string :=
  match filters with Some f => Filters.date_from f | None => None end.
Definition filters_date_to (filters : option Filters.t) : option string :=
  match filters with Some f => Filters.date_to f | None => None end.

(** [Boolean(filters?.type || filters?.severity)]. *)
Definition hasTypeOrSeverity (filters : option Filters.t) : bool :=
  truthy (or_else (filters_type filters) (filters_severity filters)).

(** [a === b] for a string [a] and an optional string [b]. *)
Definition strict_eq (a : string) (b : option string) : bool :=
  match b with
  | Some b' => (a =? b')%string
  | None => false
  end.

(** [log.risks || []]. *)
Definition risks_or_empty (log : LogEntry) : list Risk :=
  match risks log with
  | Some rs => rs
  | None => []
  end.

(** The callback of [response.logs.filter] in [fetchLogs] (lines 47-52),
    with [type] and [severity] as destructured from [filters || {}]. *)
Definition fetchLogs_keep (ty sev : option string) (log : LogEntry) : bool :=
  let risks := risks_or_empty log in
  let typeOk := if truthy ty then existsb (fun r => strict_eq (type r) ty) risks else true in
  let severityOk :=
    if truthy sev then existsb (fun r => strict_eq (severity r) sev) risks else true in
  typeOk && severityOk.

(** The argument of [apiClient.getLogs] in [fetchLogs]: the bulk request
    without [type]/[severity] in the client-side branch, the page request in
    the other. *)
Definition fetchLogs_params (filters : option Filters.t) (limit offset : Z) : Params.t :=
  if hasTypeOrSeverity filters then
    {| Params.type := None; Params.severity := None;
       Params.date_from := filters_date_from filters;
       Params.date_to := filters_date_to filters;
       Params.limit := Some 1000; Params.offset := Some 0;
       Params.format := Some json |}
  else
    {| Params.type := filters_type filters;
       Params.severity := filters_severity filters;
       Params.date_from := filters_date_from filters;
       Params.date_to := filters_date_to filters;
       Params.limit := Some limit; Params.offset := Some offset;
       Params.format := Some json |}.

(** The values a call of [fetchLogs] closes over: the props and state of the
    render in which its effect ran. *)
Record Closure := {
  c_filters : option Filters.t;
  c_limit : Z;
  c_offset : Z
}.

(** [fetchLogs] up to its [await]. *)
Definition fetchLogs_start (s : State) : State :=
  setError None (setLoading true s).

(** The [try] block of [fetchLogs] from the [await] on.  A string where a
    [LogsResponse] is expected has no [logs] to read; [getLogs] never returns
    one for [format: 'json']. *)
Definition fetchLogs_try (cl : Closure) (reply : HttpReply) (s : State) : Result State :=
  let filters := c_filters cl in
  let limit := c_limit cl in
  let offset := c_offset cl in
  match getLogs (fetchLogs_params filters limit offset) reply with
  | Throw e => Throw e
  | Return (inr _) => Throw OtherError
  | Return (inl response) =>
      if hasTypeOrSeverity filters then
        let filtered :=
          filter (fetchLogs_keep (filters_type filters) (filters_severity filters))
                 (LogsResponse.logs response) in
        let len := Z.of_nat (List.length filtered) in
        Return (setLogs (slice filtered offset (offset + limit))
               (setHasMore (offset + limit <? len)
               (setTotal len
               (setClientAll filtered
               (setClientMode true s)))))
      else
        Return (setHasMore (LogsResponse.has_more response)
               (setTotal (LogsResponse.total response)
               (setLogs (LogsResponse.logs response)
               (setClientAll []
               (setClientMode false s)))))
  end.

(** The [catch] block of [fetchLogs]. *)
Definition fetchLogs_catch (err : Exn) (s : State) : State :=
  match err with
  | APIError message _ => setError (Some message) s
  | OtherError => setError (Some "Failed to fetch logs") s
  end.

(** [fetchLogs] from its [await] to its end: [try], [catch], [finally]. *)
Definition fetchLogs_settle (cl : Closure) (reply : HttpReply) (s : State) : State :=
  setLoading false
    match fetchLogs_try cl reply s with
    | Return s' => s'
    | Throw err => fetchLogs_catch err s
    end.

(** The second effect (lines 90-96): re-slice the cache in client mode. *)
Definition reslice (s : State) : State :=
  if clientMode s then
    setTotal (Z.of_nat (List.length (clientAll s)))
   (setHasMore (offset s + limit s <? Z.of_nat (List.length (clientAll s)))
   (setLogs (slice (clientAll s) (offset s) (offset s + limit s)) s))
  else s.

(* ------------------------------------------------------------------ *)
(** ** What is rendered *)

Inductive View :=
| LoadingView
| ErrorView (message : string)
| TableView (rows : list LogEntry) (showing_total : Z)
            (previousDisabled nextDisabled : bool).

Definition previousDisabled (s : State) : bool := offset s =? 0.
Definition nextDisabled (s : State) : bool := negb (hasMore s).

(** The three returns of the component body (lines 210-304). *)
Definition render (s : State) : View :=
  if loading s && (Nat.eqb (List.length (logs s)) 0) then LoadingView
  else if truthy (error s) then
    ErrorView (match error s with Some m => m | None => EmptyString end)
  else TableView (logs s) (total s) (previousDisabled s) (nextDisabled s).

(** The [onClick] handlers of the two paging buttons: the offset they pass
    to [setOffset]. *)
Definition onPrevious (s : State) : Z := Z.max 0 (offset s - limit s).
Definition onNext (s : State) : Z := offset s + limit s.

(* ------------------------------------------------------------------ *)
(** ** The component as a transition system *)

(** The component between two events: its state cells, its [filters] prop,
    the calls of [fetchLogs] that are waiting for their reply, and the log of
    every [apiClient.getLogs] call made so far (a ghost field: the Remote Log
    Source sees one request per entry). *)
Record Comp := {
  state : State;
  filters : option Filters.t;
  inflight : list Closure;
  calls : list Params.t
}.

(** The first effect (lines 85-87) firing: [fetchLogs()] runs up to its
    [await], the request leaves, the continuation waits. *)
Definition effect_fetch (c : Comp) : Comp :=
  let s := state c in
  {| state := fetchLogs_start s;
     filters := filters c;
     inflight := (inflight c ++ [ {| c_filters := filters c;
                                      c_limit := limit s;
                                      c_offset := offset s |} ])%list;
     calls := (calls c ++ [fetchLogs_params (filters c) (limit s) (offset s)])%list |}.

(** The second effect firing. *)
Definition effect_reslice (c : Comp) : Comp :=
  {| state := reslice (state c); filters := filters c;
     inflight := inflight c; calls := calls c |}.

(** [mount], [click_setOffset], [change_filters] and [deliver] below give
    the component after an event together with the effects of the render
    that event commits; the renders committed in between, before those
    effects have run, are those of [rendered] further down. *)

(** Mounting: both effects run once on the initial state. *)
Definition mount (f : option Filters.t) : Comp :=
  effect_reslice
    (effect_fetch
       {| state := initialState; filters := f; inflight := []; calls := [] |}).

(** [setOffset(v)] from a click, followed by the effects whose dependency
    lists contain [offset]: [limit, offset, filters] for the first,
    [clientMode, clientAll, limit, offset] for the second.  Setting a cell
    to the value it holds re-renders nothing. *)
Definition click_setOffset (v : Z) (c : Comp) : Comp :=
  if v =? offset (state c) then c
  else
    effect_reslice
      (effect_fetch
         {| state := setOffset v (state c); filters := filters c;
            inflight := inflight c; calls := calls c |}).

Definition click_previous (c : Comp) : Comp :=
  click_setOffset (onPrevious (state c)) c.

Definition click_next (c : Comp) : Comp :=
  click_setOffset (onNext (state c)) c.

(** The parent passes another [filters] object: only the first effect
    depends on it. *)
Definition change_filters (f : option Filters.t) (c : Comp) : Comp :=
  effect_fetch
    {| state := state c; filters := f; inflight := inflight c; calls := calls c |}.

Fixpoint remove_nth {A : Type} (n : nat) (l : list A) : list A :=
  match n, l with
  | _, [] => []
  | O, _ :: t => t
  | S n', h :: t => h :: remove_nth n' t
  end.

(** The reply to the [n]-th waiting call arrives: its continuation runs
    against the current cells with the values it closed over.  A successful
    continuation stores a fresh array in [clientAll], so the second effect
    runs after it; a failed one touches none of that effect's dependencies. *)
Definition deliver (n : nat) (reply : HttpReply) (c : Comp) : Comp :=
  match nth_error (inflight c) n with
  | None => c
  | Some cl =>
      let s' := fetchLogs_settle cl reply (state c) in
      {| state := match fetchLogs_try cl reply (state c) with
                  | Return _ => reslice s'
                  | Throw _ => s'
                  end;
         filters := filters c;
         inflight := remove_nth n (inflight c);
         calls := calls c |}
  end.

(** A disabled button receives no click, and the buttons exist only in the
    table view. *)
Definition previous_clickable (s : State) : bool :=
  match render s with
  | TableView _ _ false _ => true
  | _ => false
  end.

Definition next_clickable (s : State) : bool :=
  match render s with
  | TableView _ _ _ false => true
  | _ => false
  end.

Inductive step : Comp -> Comp -> Prop :=
| step_previous c :
    previous_clickable (state c) = true -> step c (click_previous c)
| step_next c :
    next_clickable (state c) = true -> step c (click_next c)
| step_filters c f :
    step c (change_filters f c)
| step_reply c n reply :
    (n < List.length (inflight c))%nat -> step c (deliver n reply c).

Inductive reachable : Comp -> Prop :=
| reachable_mount f : reachable (mount f)
| reachable_step c c' : reachable c -> step c c' -> reachable c'.

(* ------------------------------------------------------------------ *)
(** ** Every committed render *)

(** [mount], [click_setOffset], [change_filters] and [deliver] give the
    component once the effects of the render have run, and [reachable]
    collects those states.  React commits a render first and runs the
    effects after it: the render with the new offset and the rows of the old
    one after a click, the render with the cells as the continuation of
    [fetchLogs] wrote them (cut at the offset it closed over) after a reply.
    A [Screen] is such a committed render together with the effects that
    are still to run; the effects of a render run before the next event is
    handled.  The cells that a continuation sets after its [await], and
    those that the effects set, are committed as one batch. *)
Inductive Phase :=
| Settled          (* no effect pending *)
| FetchAndReslice  (* first render, or [offset] changed: both effects *)
| FetchOnly        (* [filters] changed: the first effect *)
| ResliceOnly.     (* [clientAll] replaced: the second effect *)

Record Screen := { comp : Comp; phase : Phase }.

(** The first render. *)
Definition commit_mount (f : option Filters.t) : Screen :=
  {| comp := {| state := initialState; filters := f; inflight := []; calls := [] |};
     phase := FetchAndReslice |}.

(** The render after [setOffset(v)]. *)
Definition commit_setOffset (v : Z) (c : Comp) : Screen :=
  if v =? offset (state c) then {| comp := c; phase := Settled |}
  else
    {| comp := {| state := setOffset v (state c); filters := filters c;
                  inflight := inflight c; calls := calls c |};
       phase := FetchAndReslice |}.

(** The render with another [filters] prop. *)
Definition commit_filters (f : option Filters.t) (c : Comp) : Screen :=
  {| comp := {| state := state c; filters := f;
                inflight := inflight c; calls := calls c |};
     phase := FetchOnly |}.

(** The render after the continuation of the [n]-th waiting call ran. *)
Definition commit_reply (n : nat) (reply : HttpReply) (c : Comp) : Screen :=
  match nth_error (inflight c) n with
  | None => {| comp := c; phase := Settled |}
  | Some cl =>
      {| comp := {| state := fetchLogs_settle cl reply (state c);
                    filters := filters c;
                    inflight := remove_nth n (inflight c);
                    calls := calls c |};
         phase := match fetchLogs_try cl reply (state c) with
                  | Return _ => ResliceOnly
                  | Throw _ => Settled
                  end |}
  end.

(** Running the pending effects. *)
Definition flush (scr : Screen) : Comp :=
  match phase scr with
  | Settled => comp scr
  | FetchAndReslice => effect_reslice (effect_fetch (comp scr))
  | FetchOnly => effect_fetch (comp scr)
  | ResliceOnly => effect_reslice (comp scr)
  end.

Inductive rendered : Screen -> Prop :=
| rendered_mount f : rendered (commit_mount f)
| rendered_flush scr :
    rendered scr -> phase scr <> Settled ->
    rendered {| comp := flush scr; phase := Settled |}
| rendered_previous c :
    rendered {| comp := c; phase := Settled |} ->
    previous_clickable (state c) = true ->
    rendered (commit_setOffset (onPrevious (state c)) c)
| rendered_next c :
    rendered {| comp := c; phase := Settled |} ->
    next_clickable (state c) = true ->
    rendered (commit_setOffset (onNext (state c)) c)
| rendered_filters c f :
    rendered {| comp := c; phase := Settled |} ->
    rendered (commit_filters f c)
| rendered_reply c n reply :
    rendered {| comp := c; phase := Settled |} ->
    (n < List.length (inflight c))%nat ->
    rendered (commit_reply n reply c).

(* ------------------------------------------------------------------ *)
(** ** Export ([handleExport]) *)

Module Blob.
Record t := { parts : string; type : string }.
End Blob.

Inductive ExportOutcome :=
| Download (filename : string) (blob : Blob.t)
| Alert (message : string).

(** The callback of [response.logs.filter] in [handleExport]
    (lines 112-117). *)
Definition handleExport_keep (ty sev : option string) (log : LogEntry) : bool :=
  let risks := risks_or_empty log in
  let typeOk := if truthy ty then existsb (fun r => strict_eq (type r) ty) risks else true in
  let severityOk :=
    if truthy sev then existsb (fun r => strict_eq (severity r) sev) risks else true in
  typeOk && severityOk.

(** The argument of [apiClient.getLogs] in [handleExport]. *)
Definition handleExport_params (format : Format) (filters : option Filters.t) : Params.t :=
  if hasTypeOrSeverity filters then
    {| Params.type := None; Params.severity := None;
       Params.date_from := filters_date_from filters;
       Params.date_to := filters_date_to filters;
       Params.limit := Some 1000; Params.offset := Some 0;
       Params.format := Some json |}
  else
    {| Params.type := filters_type filters;
       Params.severity := filters_severity filters;
       Params.date_from := filters_date_from filters;
       Params.date_to := filters_date_to filters;
       Params.limit := Some 1000; Params.offset := Some 0;
       Params.format := Some format |}.

(** [String(log.risks?.length ?? 0)]. *)
Definition risk_count (log : LogEntry) : string :=
  String_of_number
    (match risks log with
     | Some rs => Z.of_nat (List.length rs)
     | None => 0
     end).

(** The callback of [filtered.map] (lines 122-131): one CSV row. *)
Definition csv_row (log : LogEntry) : string :=
  let cols :=
    [ String_of_number (id log);
      String dquote (request_id log ++ String dquote EmptyString);
      String dquote (timestamp log ++ String dquote EmptyString);
      String dquote (decision log ++ String dquote EmptyString);
      risk_count log ] in
  join "," cols.

Definition csv_header : string :=
  "id,request_id,timestamp,decision,risk_count" ++ String newline EmptyString.

(** [header + rows.join('\n')] (line 132). *)
Definition csv_of (filtered : list LogEntry) : string :=
  let rows := map csv_row filtered in
  csv_header ++ join (String newline EmptyString) rows.

(** The object handed to [JSON.stringify] in the client-side JSON export
    (lines 143-149). *)
Definition json_of (filtered : list LogEntry) : LogsResponse.t :=
  {| LogsResponse.logs := filtered;
     LogsResponse.total := Z.of_nat (List.length filtered);
     LogsResponse.limit := Z.of_nat (List.length filtered);
     LogsResponse.offset := 0;
     LogsResponse.has_more := false |}.

(** [new Date().toISOString().split('T')[0]], given the ISO string. *)
Definition iso_date (now : string) : string :=
  hd EmptyString (split_on "T"%char now).

Definition extension (format : Format) : string :=
  match format with csv => ".csv" | json => ".json" end.

(** [handleExport(format)] after the reply arrived.  [stringify] is
    [JSON.stringify(., null, 2)] and [now] is [new Date().toISOString()] at
    the time of the download.  [getLogs] returns text exactly when asked for
    [csv], so the branches that pair a format with the other kind of data
    are never taken; reading [logs] off a string throws, hence the alert. *)
Definition handleExport (stringify : LogsResponse.t -> string) (now : string)
    (format : Format) (filters : option Filters.t) (reply : HttpReply) : ExportOutcome :=
  let filename := "logs-" ++ iso_date now ++ extension format in
  match getLogs (handleExport_params format filters) reply with
  | Throw _ => Alert "Failed to export logs"
  | Return data =>
      if hasTypeOrSeverity filters then
        match data with
        | inr _ => Alert "Failed to export logs"
        | inl response =>
            let filtered :=
              filter (handleExport_keep (filters_type filters) (filters_severity filters))
                     (LogsResponse.logs response) in
            match format with
            | csv =>
                Download filename
                  {| Blob.parts := csv_of filtered; Blob.type := "text/csv" |}
            | json =>
                Download filename
                  {| Blob.parts := stringify (json_of filtered);
                     Blob.type := "application/json" |}
            end
        end
      else
        match format, data with
        | csv, inr text =>
            Download filename {| Blob.parts := text; Blob.type := "text/csv" |}
        | json, inl response =>
            Download filename
              {| Blob.parts := stringify response; Blob.type := "application/json" |}
        | _, _ => Alert "Failed to export logs"
        end
  end.

(* ------------------------------------------------------------------ *)
(** ** The predicate and the text conventions of the specification *)

(** The matching predicate in the words of the specification: a record
    matches if ([risk_type] unset or some risk on it has that type) and
    ([severity] unset or some risk on it has that severity), a missing risks
    array being empty.  A field is unset when it is absent or empty. *)
Definition unset (o : option string) : Prop := o = None \/ o = Some EmptyString.

Definition spec_matches (ty sev : option string) (log : LogEntry) : Prop :=
  (unset ty \/ exists r, In r (risks_or_empty log) /\ Some (type r) = ty) /\
  (unset sev \/ exists r, In r (risks_or_empty log) /\ Some (severity r) = sev).

(** The lines of a text: the pieces between line feeds, a final line feed
    ending the last line rather than opening an empty one. *)
Definition text_lines (s : string) : list string :=
  let pieces := split_on newline s in
  match last pieces EmptyString with
  | EmptyString => removelast pieces
  | _ => pieces
  end.

(** The fields of a row, read the plain way: cut at every comma. *)
Definition fields (row : string) : list string := split_on comma row.

(** A field that is a double-quoted value with no quote inside. *)
Definition quoted_field (f : string) : bool :=
  match f with
  | String a rest =>
      Ascii.eqb a dquote &&
      match split_on dquote rest with
      | [_; EmptyString] => true
      | _ => false
      end
  | EmptyString => false
  end.

(** A row with exactly five well-formed comma-separated fields: a bare
    first and last field and three quoted ones in between. *)
Definition well_formed_row (row : string) : bool :=
  match fields row with
  | [f1; f2; f3; f4; f5] =>
      negb (contains dquote f1) && quoted_field f2 && quoted_field f3 &&
      quoted_field f4 && negb (contains dquote f5)
  | _ => false
  end.

(** The three text columns of a record hold no [c]. *)
Definition free_of (c : ascii) (log : LogEntry) : bool :=
  negb (contains c (request_id log)) &&
  negb (contains c (timestamp log)) &&
  negb (contains c (decision log)).

(** [`"${v}"`]: a value between double quotes. *)
Definition in_quotes (v : string) : string :=
  String dquote (v ++ String dquote EmptyString).

(** The five columns of a record as the specification lists them. *)
Definition spec_columns (log : LogEntry) : list string :=
  [ String_of_number (id log);
    in_quotes (request_id log);
    in_quotes (timestamp log);
    in_quotes (decision log);
    String_of_number (Z.of_nat (List.length (risks_or_empty log))) ].

(** The shape of the client-side CSV export as the specification words it:
    the header line, then one line per record, each cutting at its commas
    into the five columns of its record, the three text columns being
    well-formed quoted values. *)
Definition csv_export_shape (filtered : list LogEntry) : Prop :=
  exists rows,
    text_lines (csv_of filtered) =
      "id,request_id,timestamp,decision,risk_count" :: rows /\
    List.length rows = List.length filtered /\
    Forall2 (fun log row => fields row = spec_columns log /\ well_formed_row row = true)
            filtered rows.

(** Reading CSV with quoted fields: fields are separated by commas and
    records by line feeds; a field that opens with a double quote runs to
    its closing quote, commas and line feeds included, a doubled quote
    inside standing for one quote; a closing quote must be followed by a
    comma, a line feed or the end; a bare field holds no quote; a line feed
    at the very end ends the last record.  [None] is a text that is not
    well formed. *)
Inductive ReadState := RecordStart | FieldStart | InBare | InQuoted | QuoteSeen.

Fixpoint csv_scan (st : ReadState) (cur : string) (row : list string)
    (out : list (list string)) (s : string) : option (list (list string)) :=
  match s with
  | EmptyString =>
      match st with
      | RecordStart => Some out
      | FieldStart => Some (out ++ [row ++ [EmptyString]])%list
      | InBare | QuoteSeen => Some (out ++ [row ++ [cur]])%list
      | InQuoted => None
      end
  | String a s' =>
      match st with
      | RecordStart | FieldStart =>
          if Ascii.eqb a comma then
            csv_scan FieldStart EmptyString (row ++ [EmptyString])%list out s'
          else if Ascii.eqb a newline then
            csv_scan RecordStart EmptyString [] (out ++ [row ++ [EmptyString]])%list s'
          else if Ascii.eqb a dquote then csv_scan InQuoted EmptyString row out s'
          else csv_scan InBare (String a EmptyString) row out s'
      | InBare =>
          if Ascii.eqb a comma then
            csv_scan FieldStart EmptyString (row ++ [cur])%list out s'
          else if Ascii.eqb a newline then
            csv_scan RecordStart EmptyString [] (out ++ [row ++ [cur]])%list s'
          else if Ascii.eqb a dquote then None
          else csv_scan InBare (cur ++ String a EmptyString) row out s'
      | InQuoted =>
          if Ascii.eqb a dquote then csv_scan QuoteSeen cur row out s'
          else csv_scan InQuoted (cur ++ String a EmptyString) row out s'
      | QuoteSeen =>
          if Ascii.eqb a dquote then
            csv_scan InQuoted (cur ++ String dquote EmptyString) row out s'
          else if Ascii.eqb a comma then
            csv_scan FieldStart EmptyString (row ++ [cur])%list out s'
          else if Ascii.eqb a newline then
            csv_scan RecordStart EmptyString [] (out ++ [row ++ [cur]])%list s'
          else None
      end
  end.

Definition csv_read (s : string) : option (list (list string)) :=
  csv_scan RecordStart EmptyString [] [] s.

(** The five values of a record, as a reader of the export should get them
    back. *)
Definition csv_values (log : LogEntry) : list string :=
  [ String_of_number (id log);
    request_id log;
    timestamp log;
    decision log;
    String_of_number (Z.of_nat (List.length (risks_or_empty log))) ].

Definition csv_header_fields : list string :=
  ["id"; "request_id"; "timestamp"; "decision"; "risk_count"].

(** A text with no comma, no line feed and no double quote. *)
Definition bare (s : string) : bool :=
  negb (contains comma s) && negb (contains newline s) && negb (contains dquote s).

(** What the client-side export serializes, for either format. *)
Definition serialize (stringify : LogsResponse.t -> string) (format : Format)
    (filtered : list LogEntry) : string :=
  match format with
  | csv => csv_of filtered
  | json => stringify (json_of filtered)
  end.

Definition mime (format : Format) : string :=
  match format with
  | csv => "text/csv"
  | json => "application/json"
  end.

(** The bulk request of local mode: no [type], no [severity], the date
    range, the ceiling of 1000 records from offset 0, as JSON. *)
Definition bulk_params (filters : option Filters.t) : Params.t :=
  {| Params.type := None; Params.severity := None;
     Params.date_from := filters_date_from filters;
     Params.date_to := filters_date_to filters;
     Params.limit := Some 1000; Params.offset := Some 0;
     Params.format := Some json |}.

(** An export request as the specification words it for remote mode: the
    criteria with no [limit] and no [offset]. *)
Definition unpaged (params : Params.t) : Prop :=
  Params.limit params = None /\ Params.offset params = None.

(** The cache is authoritative for what the pager shows. *)
Definition cache_authoritative (s : State) : Prop :=
  logs s = slice (clientAll s) (offset s) (offset s + limit s) /\
  total s = Z.of_nat (List.length (clientAll s)) /\
  (hasMore s = true <-> offset s + limit s < Z.of_nat (List.length (clientAll s))).

(** The page on screen is the one cut from the cache at offset [o]. *)
Definition page_cut_at (o : Z) (s : State) : Prop :=
  logs s = slice (clientAll s) o (o + limit s) /\
  total s = Z.of_nat (List.length (clientAll s)) /\
  (hasMore s = true <-> o + limit s < Z.of_nat (List.length (clientAll s))).

(** A reply that is a failure of the Remote Log Source call: the network
    failed or the status is not a success. *)
Definition is_failure (reply : HttpReply) : bool :=
  match reply with
  | NetworkError | NotOk _ _ _ => true
  | Ok _ _ => false
  end.

(* ------------------------------------------------------------------ *)
(** ** Sample data *)

Definition sample_risk (ty sev : string) : Risk :=
  {| type := ty; severity := sev; match_ := "x";
     position := {| start := 0; end_ := 1 |}; explanation := "found" |}.

Definition sample_log (i : Z) (rid dec : string) (rs : option (list Risk)) : LogEntry :=
  {| id := i; request_id := rid; timestamp := "2024-05-06T07:08:09Z";
     original_prompt := None; modified_prompt := None;
     original_response := None; modified_response := None;
     decision := dec; risks := rs; metadata := [] |}.

(** The three records of the scenario of the specification. *)
Definition scenario_logs : list LogEntry :=
  [ sample_log 1 "req-1" "block" (Some [sample_risk "pii" "high"]);
    sample_log 2 "req-2" "warn" (Some [sample_risk "injection" "low"]);
    sample_log 3 "req-3" "allow" (Some []) ].

Definition log_with_comma : LogEntry := sample_log 7 "a,b" "allow" None.
Definition log_with_quote : LogEntry :=
  sample_log 8 ("a" ++ String dquote "b") "allow" None.
Definition log_with_newline : LogEntry :=
  sample_log 9 "req-9" ("al" ++ String newline "low") None.

(** Records that pass the filter [type = pii] and so reach the export. *)
Definition pii_log_with_quote : LogEntry :=
  sample_log 8 ("a" ++ String dquote "b") "allow" (Some [sample_risk "pii" "high"]).
Definition pii_log_with_comma : LogEntry :=
  sample_log 7 "a,b" ("al" ++ String newline "low") (Some [sample_risk "pii" "high"]).
(** A request id made of [a], a double quote, a comma, a double quote and
    [b]: between the quotes the serializer adds, it reads as two quoted
    fields. *)
Definition pii_log_six_fields : LogEntry :=
  sample_log 9 ("a" ++ String dquote ("," ++ String dquote "b")) "allow"
    (Some [sample_risk "pii" "high"]).

(** The [detail] values [[]] and [[{...}]] as the client observes them. *)
Definition js_empty_array : JsValue :=
  {| js_truthy := true; js_String := EmptyString |}.
Definition js_object_array : JsValue :=
  {| js_truthy := true; js_String := "[object Object]" |}.

Definition pii_filters : option Filters.t :=
  Some {| Filters.type := Some "pii"; Filters.severity := None;
          Filters.date_from := Some "2024-05-01"; Filters.date_to := None |}.

(** [n] records that carry a [pii] risk each. *)
Definition pii_logs (n : nat) : list LogEntry :=
  map (fun i => sample_log (Z.of_nat i) "req" "block" (Some [sample_risk "pii" "high"]))
      (seq 0 n).

Definition page (l : list LogEntry) (tot lim off : Z) (more : bool) : LogsResponse.t :=
  {| LogsResponse.logs := l; LogsResponse.total := tot; LogsResponse.limit := lim;
     LogsResponse.offset := off; LogsResponse.has_more := more |}.

Definition body : string := "{...}".

(** Local mode at rest: mounted with a [type] filter, the bulk reply of 60
    matching records delivered, nothing in flight. *)
Definition local_comp : Comp :=
  deliver 0 (Ok body (Some (page (pii_logs 60) 60 1000 0 false))) (mount pii_filters).




(* ------------------------------------------------------------------ *)
(** ** The rest of the table: badge, rows, caption *)

(** [getDecisionColor] (lines 195-208): the [switch] compares with [===],
    case by case in the order written. *)
Definition getDecisionColor (decision : string) : string :=
  if (decision =? "block")%string then "bg-red-100 text-red-800"
  else if (decision =? "redact")%string then "bg-yellow-100 text-yellow-800"
  else if (decision =? "warn")%string then "bg-orange-100 text-orange-800"
  else if (decision =? "allow")%string then "bg-green-100 text-green-800"
  else "bg-gray-100 text-gray-800".

(** One [<tr>] of the table body (lines 266-281). *)
Record Row := {
  row_key : Z;
  timestamp_cell : string;
  badge_class : string;
  badge_text : string;
  risks_cell : string;
  request_cell : string
}.

(** The callback of [logs.map] in the table body.  [toLocaleString] is
    [new Date(.).toLocaleString()].  The cell of the risks reads
    [log.risks.length] with no guard: on a record without a risks array it
    throws a [TypeError]. *)
Definition render_row (toLocaleString : string -> string) (log : LogEntry) : Result Row :=
  match risks log with
  | None => Throw OtherError
  | Some rs =>
      let n := Z.of_nat (List.length rs) in
      Return
        {| row_key := id log;
           timestamp_cell := toLocaleString (timestamp log);
           badge_class :=
             "px-2 py-1 rounded-full text-xs font-medium " ++ getDecisionColor (decision log);
           badge_text := decision log;
           risks_cell := String_of_number n ++ " risk" ++ (if n =? 1 then EmptyString else "s");
           request_cell := substring 0 8 (request_id log) ++ "..." |}
  end.

(** The two numbers of the caption (line 227):
    [Showing {offset + 1}-{Math.min(offset + limit, total)} of {total} logs]. *)
Definition showing_from (s : State) : Z := offset s + 1.
Definition showing_to (s : State) : Z := Z.min (offset s + limit s) (total s).

Definition caption (s : State) : string :=
  "Showing " ++ String_of_number (showing_from s) ++ "-" ++
  String_of_number (showing_to s) ++ " of " ++ String_of_number (total s) ++ " logs".

(* ------------------------------------------------------------------ *)
(** ** The rest of the API client: the query string of [getLogs], [login] *)

Definition String_of_format (f : Format) : string :=
  match f with json => "json" | csv => "csv" end.

(** One step of the [forEach] over [Object.entries(params)]: a value that is
    not [undefined] is appended under its key. *)
Definition entry (key : string) (value : option string) : list (string * string) :=
  match value with
  | Some v => [(key, v)]
  | None => []
  end.

(** The name/value pairs [getLogs] puts into its [URLSearchParams]
    (lines 445-452).  The keys come in the order the call sites of the
    component write them: the filter keys, then [limit], [offset],
    [format]. *)
Definition queryEntries (params : option Params.t) : list (string * string) :=
  match params with
  | None => []
  | Some p =>
      (entry "type" (Params.type p) ++
       entry "severity" (Params.severity p) ++
       entry "date_from" (Params.date_from p) ++
       entry "date_to" (Params.date_to p) ++
       entry "limit" (option_map String_of_number (Params.limit p)) ++
       entry "offset" (option_map String_of_number (Params.offset p)) ++
       entry "format" (option_map String_of_format (Params.format p)))%list
  end.

(** [queryParams.toString()]: the pairs as [name=value], joined by [&];
    [encode] is the percent-encoding of the URL standard. *)
Definition queryString (encode : string -> string) (entries : list (string * string))
  : string :=
  join "&" (map (fun kv => encode (fst kv) ++ "=" ++ encode (snd kv)) entries).

(** The endpoint of [getLogs] (line 454). *)
Definition getLogs_endpoint (encode : string -> string) (params : option Params.t)
  : string :=
  let qs := queryString encode (queryEntries params) in
  "/v1/logs" ++ (if truthy (Some qs) then "?" ++ qs else EmptyString).

(** What [login] resolves to. *)
Record Token := { access_token : string; token_type : string }.

(** What [fetch] gives back for the login request, read as [HttpReply] is. *)
Inductive LoginReply :=
| LoginNetworkError
| LoginOk (parsed : option Token)
| LoginNotOk (status : Z) (statusText : string) (body : ErrorBody).

(** [apiClient.login(username, password)] after the reply arrived
    (lines 484-498). *)
Definition login (reply : LoginReply) : Result Token :=
  match reply with
  | LoginNetworkError => Throw OtherError
  | LoginNotOk status statusText body =>
      match errorData_detail statusText body with
      | None => Throw OtherError
      | Some detail =>
          Throw (APIError (js_or detail ("Login failed: " ++ statusText)) status)
      end
  | LoginOk (Some t) => Return t
  | LoginOk None => Throw OtherError
  end.

(* ------------------------------------------------------------------ *)
(** ** Notions used to state the further properties *)

(** The [k]-th page of a list for page size [L], as the pager cuts it. *)
Definition page_at {A : Type} (l : list A) (L : Z) (k : nat) : list A :=
  slice l (Z.of_nat k * L) (Z.of_nat k * L + L).

(** A request that carries no non-empty [type] or [severity]. *)
Definition no_risk_filter (p : Params.t) : bool :=
  negb (truthy (Params.type p)) && negb (truthy (Params.severity p)).

(** When [handleExport] ends in a download: a success status, with a JSON
    body unless the reply is the server's own CSV. *)
Definition export_succeeds (format : Format) (filters : option Filters.t)
    (reply : HttpReply) : bool :=
  match reply with
  | Ok _ parsed =>
      match parsed with
      | Some _ => true
      | None =>
          match format with
          | csv => negb (hasTypeOrSeverity filters)
          | json => false
          end
      end
  | _ => false
  end.

(** A record with a risks array that holds at least one risk. *)
Definition has_risk (log : LogEntry) : Prop :=
  exists r rs, risks log = Some (r :: rs).

Definition known_decision (d : string) : Prop :=
  d = "block" \/ d = "redact" \/ d = "warn" \/ d = "allow".

(* ================================================================== *)
(** * Properties *)

(* ------------------------------------------------------------------ *)
(** ** Strings: [contains], [split_on] and [join] *)

Section SplitJoin.
Variable c : ascii.

Lemma contains_app (s1 s2 : string) :
  contains c (s1 ++ s2) = contains c s1 || contains c s2.
Proof.
  induction s1 as [|a s1 IH]; simpl; [reflexivity|].
  rewrite IH. now rewrite orb_assoc.
Qed.

Lemma split_on_not_nil (s : string) : split_on c s <> [].
Proof.
  destruct s as [|a s]; simpl; [discriminate|].
  destruct (Ascii.eqb a c); [discriminate|].
  destruct (split_on c s); discriminate.
Qed.

Lemma split_on_absent (s : string) :
  contains c s = false -> split_on c s = [s].
Proof.
  induction s as [|a s IH]; simpl; [reflexivity|].
  destruct (Ascii.eqb a c); simpl; [discriminate|].
  intros H. now rewrite (IH H).
Qed.

Lemma split_on_present (s : string) :
  contains c s = true -> (2 <= List.length (split_on c s))%nat.
Proof.
  induction s as [|a s IH]; simpl; [discriminate|].
  destruct (Ascii.eqb a c); simpl.
  - intros _. pose proof (split_on_not_nil s).
    destruct (split_on c s); simpl; [congruence | lia].
  - intros H. specialize (IH H).
    destruct (split_on c s); simpl in *; lia.
Qed.

(** Cutting a text that has a separator in the middle cuts both sides. *)
Lemma split_on_app_sep (s1 s2 : string) :
  split_on c (s1 ++ String c s2) = (split_on c s1 ++ split_on c s2)%list.
Proof.
  induction s1 as [|a s1 IH]; simpl.
  - now rewrite Ascii.eqb_refl.
  - destruct (Ascii.eqb a c); [now rewrite IH|].
    rewrite IH. pose proof (split_on_not_nil s1).
    destruct (split_on c s1); [congruence | reflexivity].
Qed.

Lemma join_cons (x : string) (l : list string) :
  l <> [] ->
  join (String c EmptyString) (x :: l) = x ++ String c (join (String c EmptyString) l).
Proof.
  destruct l; [congruence | reflexivity].
Qed.

(** [split_on] undoes [join] on pieces that are free of the separator. *)
Lemma split_on_join (l : list string) :
  l <> [] ->
  Forall (fun s => contains c s = false) l ->
  split_on c (join (String c EmptyString) l) = l.
Proof.
  induction l as [|x l IH]; [congruence|].
  intros _ Hall. inversion Hall as [|? ? Hx Hl]; subst.
  destruct l as [|y l].
  - simpl. now apply split_on_absent.
  - rewrite join_cons by discriminate.
    rewrite split_on_app_sep, (split_on_absent _ Hx), IH by (discriminate || assumption).
    reflexivity.
Qed.
End SplitJoin.

(** The decimal text of an integer holds digits and at most a sign. *)
Lemma contains_uint (c : ascii) (d : Decimal.uint) :
  contains c "0123456789" = false ->
  contains c (NilEmpty.string_of_uint d) = false.
Proof.
  intros H. simpl in H. repeat (apply orb_false_elim in H; destruct H as [? H]).
  induction d; simpl; auto; rewrite IHd; rewrite orb_false_r; assumption.
Qed.

Lemma contains_String_of_number (c : ascii) (n : Z) :
  contains c "-0123456789" = false ->
  contains c (String_of_number n) = false.
Proof.
  intros H. simpl in H. apply orb_false_elim in H. destruct H as [Hm H].
  assert (Hz : contains c "0" = false).
  { simpl in *. apply orb_false_elim in H. destruct H as [-> _]. reflexivity. }
  unfold String_of_number, NilZero.string_of_int, NilZero.string_of_uint.
  destruct (Z.to_int n) as [d|d]; simpl; rewrite ?Hm; simpl;
    destruct d; try exact Hz; apply contains_uint; exact H.
Qed.

(* ------------------------------------------------------------------ *)
(** ** The CSV serializer *)

Lemma risk_count_spec (log : LogEntry) :
  risk_count log = String_of_number (Z.of_nat (List.length (risks_or_empty log))).
Proof.
  unfold risk_count, risks_or_empty. now destruct (risks log).
Qed.

Lemma csv_row_unfold (log : LogEntry) :
  csv_row log =
  String_of_number (id log) ++ String comma
    (in_quotes (request_id log) ++ String comma
      (in_quotes (timestamp log) ++ String comma
        (in_quotes (decision log) ++ String comma (risk_count log)))).
Proof. reflexivity. Qed.

Lemma contains_in_quotes (c : ascii) (v : string) :
  Ascii.eqb dquote c = false ->
  contains c (in_quotes v) = contains c v.
Proof.
  intros H. unfold in_quotes. cbn [contains]. rewrite contains_app. cbn [contains].
  rewrite H. now rewrite !orb_false_r.
Qed.

(** Cut at its commas, a row is the id, the pieces of the three quoted
    columns, and the count. *)
Lemma fields_csv_row (log : LogEntry) :
  fields (csv_row log) =
  ([String_of_number (id log)] ++
   split_on comma (in_quotes (request_id log)) ++
   split_on comma (in_quotes (timestamp log)) ++
   split_on comma (in_quotes (decision log)) ++
   [risk_count log])%list.
Proof.
  unfold fields. rewrite csv_row_unfold, !split_on_app_sep.
  rewrite (split_on_absent comma (String_of_number _)) by now apply contains_String_of_number.
  rewrite (split_on_absent comma (risk_count _)) by now apply contains_String_of_number.
  reflexivity.
Qed.

Lemma free_of_true (c : ascii) (log : LogEntry) :
  free_of c log = true <->
  contains c (request_id log) = false /\
  contains c (timestamp log) = false /\
  contains c (decision log) = false.
Proof.
  unfold free_of. rewrite !andb_true_iff, !negb_true_iff. tauto.
Qed.

Lemma fields_csv_row_free (log : LogEntry) :
  free_of comma log = true -> fields (csv_row log) = spec_columns log.
Proof.
  intros H. apply free_of_true in H. destruct H as (H1 & H2 & H3).
  rewrite fields_csv_row, risk_count_spec. unfold spec_columns.
  rewrite !split_on_absent by (rewrite contains_in_quotes; [assumption | reflexivity]).
  reflexivity.
Qed.

Lemma split_on_length (c : ascii) (s : string) :
  (1 <= List.length (split_on c s))%nat.
Proof.
  pose proof (split_on_not_nil c s). destruct (split_on c s); simpl; [congruence | lia].
Qed.

Lemma fields_csv_row_length (log : LogEntry) :
  free_of comma log = false -> (6 <= List.length (fields (csv_row log)))%nat.
Proof.
  intros H. rewrite fields_csv_row, !length_app.
  cbn [List.length].
  pose proof (split_on_length comma (in_quotes (request_id log))) as N1.
  pose proof (split_on_length comma (in_quotes (timestamp log))) as N2.
  pose proof (split_on_length comma (in_quotes (decision log))) as N3.
  pose proof (split_on_present comma (in_quotes (request_id log))) as P1.
  pose proof (split_on_present comma (in_quotes (timestamp log))) as P2.
  pose proof (split_on_present comma (in_quotes (decision log))) as P3.
  rewrite contains_in_quotes in P1, P2, P3 by reflexivity.
  unfold free_of in H.
  destruct (contains comma (request_id log)); [specialize (P1 eq_refl); lia|].
  destruct (contains comma (timestamp log)); [specialize (P2 eq_refl); lia|].
  destruct (contains comma (decision log)); [specialize (P3 eq_refl); lia|].
  discriminate.
Qed.

Lemma quoted_field_in_quotes (v : string) :
  quoted_field (in_quotes v) = negb (contains dquote v).
Proof.
  unfold quoted_field, in_quotes. rewrite Ascii.eqb_refl, split_on_app_sep. simpl.
  destruct (contains dquote v) eqn:E; simpl.
  - apply split_on_present in E.
    destruct (split_on dquote v) as [|a [|b [|d l]]]; simpl in *; try lia;
      destruct b; reflexivity.
  - now rewrite (split_on_absent _ _ E).
Qed.

(** A row is well formed exactly when its three text columns hold neither
    a comma nor a double quote. *)
Lemma well_formed_csv_row (log : LogEntry) :
  well_formed_row (csv_row log) = free_of comma log && free_of dquote log.
Proof.
  unfold well_formed_row. destruct (free_of comma log) eqn:Hc.
  - rewrite (fields_csv_row_free _ Hc). unfold spec_columns.
    rewrite !quoted_field_in_quotes.
    rewrite !contains_String_of_number by reflexivity.
    unfold free_of. simpl. now rewrite andb_true_r.
  - apply fields_csv_row_length in Hc.
    destruct (fields (csv_row log)) as [|f1 [|f2 [|f3 [|f4 [|f5 [|f6 l]]]]]];
      simpl in *; try reflexivity; lia.
Qed.

Lemma csv_row_no_newline (log : LogEntry) :
  free_of newline log = true -> contains newline (csv_row log) = false.
Proof.
  intros H. apply free_of_true in H. destruct H as (H1 & H2 & H3).
  rewrite csv_row_unfold.
  repeat (rewrite contains_app; cbn [contains]).
  change (Ascii.eqb comma newline) with false.
  rewrite !contains_in_quotes by reflexivity.
  rewrite H1, H2, H3.
  unfold risk_count. now rewrite !contains_String_of_number by reflexivity.
Qed.

Lemma csv_row_not_empty (log : LogEntry) : csv_row log <> EmptyString.
Proof.
  intros E. assert (H : contains comma (csv_row log) = true).
  { rewrite csv_row_unfold, contains_app. simpl. now rewrite orb_true_r. }
  rewrite E in H. discriminate.
Qed.

Lemma csv_of_unfold (filtered : list LogEntry) :
  csv_of filtered =
  "id,request_id,timestamp,decision,risk_count" ++
  String newline (join (String newline EmptyString) (map csv_row filtered)).
Proof. reflexivity. Qed.

Lemma last_in {A : Type} (l : list A) (d : A) : l <> [] -> In (last l d) l.
Proof.
  induction l as [|a [|b l] IH]; intros H; [congruence | now left |].
  right. apply IH. discriminate.
Qed.

(** The lines of the export are the header and one row per record, when
    no text column holds a line feed. *)
Lemma text_lines_csv_of (filtered : list LogEntry) :
  forallb (free_of newline) filtered = true ->
  text_lines (csv_of filtered) =
  "id,request_id,timestamp,decision,risk_count" :: map csv_row filtered.
Proof.
  intros H. unfold text_lines. rewrite csv_of_unfold, split_on_app_sep.
  rewrite (split_on_absent newline "id,request_id,timestamp,decision,risk_count")
    by reflexivity.
  destruct filtered as [|log rest]; [reflexivity|].
  rewrite split_on_join.
  - set (rows := map csv_row (log :: rest)).
    assert (In (last rows EmptyString) rows) as Hin by (apply last_in; discriminate).
    change (last ([_] ++ rows) EmptyString) with (last rows EmptyString).
    apply in_map_iff in Hin. destruct Hin as (l0 & E & _).
    pose proof (csv_row_not_empty l0) as N. rewrite E in N.
    destruct (last rows EmptyString); [congruence | reflexivity].
  - discriminate.
  - apply Forall_forall. intros row Hin. apply in_map_iff in Hin.
    destruct Hin as (l0 & <- & Hl0). apply csv_row_no_newline.
    rewrite forallb_forall in H. now apply H.
Qed.

Lemma string_app_assoc (a b c : string) : (a ++ b) ++ c = a ++ (b ++ c).
Proof.
  induction a as [|x a IH]; simpl; [reflexivity | now rewrite IH].
Qed.

(** Read the plain way, cutting at every comma and every line feed: for
    records whose request ids, timestamps and decisions hold no comma, no
    double quote and no line feed, the export is the header line followed by
    one line per record, each cutting into the five columns of its
    record. *)
Lemma csv_export_shape_plain_columns (filtered : list LogEntry) :
  forallb (free_of comma) filtered = true ->
  forallb (free_of dquote) filtered = true ->
  forallb (free_of newline) filtered = true ->
  csv_export_shape filtered.
Proof.
  intros Hc Hq Hn. exists (map csv_row filtered). split; [|split].
  - now apply text_lines_csv_of.
  - apply length_map.
  - clear Hn. induction filtered as [|log rest IH]; simpl; constructor.
    + simpl in Hc, Hq. apply andb_true_iff in Hc, Hq.
      split; [now apply fields_csv_row_free|].
      rewrite well_formed_csv_row. apply andb_true_iff. now split.
    + simpl in Hc, Hq. apply andb_true_iff in Hc, Hq. now apply IH.
Qed.

(** *** Reading the export back with quoted fields *)

Lemma csv_scan_bare (s : string) :
  bare s = true ->
  forall cur row out rest,
    csv_scan InBare cur row out (s ++ rest) = csv_scan InBare (cur ++ s) row out rest.
Proof.
  induction s as [|a s IH]; intros H cur row out rest.
  - simpl. f_equal. induction cur as [|x cur IHc]; simpl; [reflexivity | now rewrite <- IHc].
  - unfold bare in H. cbn [contains] in H.
    rewrite !negb_orb, !andb_true_iff, !negb_true_iff in H.
    destruct H as [[[Hc Hcs] [Hn Hns]] [Hq Hqs]].
    cbn [append csv_scan]. rewrite Hc, Hn, Hq.
    rewrite IH.
    + f_equal. now rewrite string_app_assoc.
    + unfold bare. now rewrite Hcs, Hns, Hqs.
Qed.

Lemma csv_scan_start_bare (st : ReadState) (s : string) :
  st = RecordStart \/ st = FieldStart ->
  bare s = true -> s <> EmptyString ->
  forall row out rest,
    csv_scan st EmptyString row out (s ++ rest) = csv_scan InBare s row out rest.
Proof.
  intros Hst H Hne row out rest. destruct s as [|a s]; [congruence|].
  unfold bare in H. cbn [contains] in H.
  rewrite !negb_orb, !andb_true_iff, !negb_true_iff in H.
  destruct H as [[[Hc Hcs] [Hn Hns]] [Hq Hqs]].
  assert (Hs : bare s = true) by (unfold bare; now rewrite Hcs, Hns, Hqs).
  destruct Hst as [-> | ->]; cbn [append csv_scan]; rewrite Hc, Hn, Hq;
    now rewrite (csv_scan_bare s Hs).
Qed.

Lemma csv_scan_quoted (v : string) :
  contains dquote v = false ->
  forall cur row out rest,
    csv_scan InQuoted cur row out (v ++ rest) = csv_scan InQuoted (cur ++ v) row out rest.
Proof.
  induction v as [|a v IH]; intros H cur row out rest.
  - simpl. f_equal. induction cur as [|x cur IHc]; simpl; [reflexivity | now rewrite <- IHc].
  - cbn [contains] in H. apply orb_false_elim in H. destruct H as [Ha Hv].
    cbn [append csv_scan]. rewrite Ha, (IH Hv). f_equal. now rewrite string_app_assoc.
Qed.

(** A quoted value, read from the start of a field to its closing quote. *)
Lemma csv_scan_in_quotes (v : string) :
  contains dquote v = false ->
  forall row out rest,
    csv_scan FieldStart EmptyString row out (in_quotes v ++ rest) =
    csv_scan QuoteSeen v row out rest.
Proof.
  intros H row out rest. unfold in_quotes.
  cbn [append csv_scan].
  change (Ascii.eqb dquote comma) with false.
  change (Ascii.eqb dquote newline) with false.
  rewrite Ascii.eqb_refl, string_app_assoc, (csv_scan_quoted v H).
  cbn [append csv_scan]. now rewrite Ascii.eqb_refl.
Qed.

Lemma csv_scan_comma (st : ReadState) (cur : string) (row : list string)
    (out : list (list string)) (rest : string) :
  st = InBare \/ st = QuoteSeen ->
  csv_scan st cur row out (String comma rest) =
  csv_scan FieldStart EmptyString (row ++ [cur])%list out rest.
Proof. intros [-> | ->]; reflexivity. Qed.

Lemma csv_scan_newline (cur : string) (row : list string)
    (out : list (list string)) (rest : string) :
  csv_scan InBare cur row out (String newline rest) =
  csv_scan RecordStart EmptyString [] (out ++ [row ++ [cur]])%list rest.
Proof. reflexivity. Qed.

Lemma bare_String_of_number (n : Z) :
  bare (String_of_number n) = true /\ String_of_number n <> EmptyString.
Proof.
  split.
  - unfold bare. now rewrite !contains_String_of_number by reflexivity.
  - intros E. assert (H : String.length (String_of_number n) = 0%nat) by now rewrite E.
    unfold String_of_number, NilZero.string_of_int, NilZero.string_of_uint in H.
    destruct (Z.to_int n) as [d|d]; destruct d; simpl in H; discriminate.
Qed.

(** One row, read from the start of a record up to its last field. *)
Lemma csv_scan_row (log : LogEntry) (out : list (list string)) (rest : string) :
  free_of dquote log = true ->
  csv_scan RecordStart EmptyString [] out (csv_row log ++ rest) =
  csv_scan InBare (risk_count log)
    [String_of_number (id log); request_id log; timestamp log; decision log] out rest.
Proof.
  intros H. apply free_of_true in H. destruct H as (H1 & H2 & H3).
  destruct (bare_String_of_number (id log)) as [Bi Ni].
  assert (Bc : bare (risk_count log) = true /\ risk_count log <> EmptyString).
  { rewrite risk_count_spec. apply bare_String_of_number. }
  destruct Bc as [Bc Nc].
  rewrite csv_row_unfold. rewrite !string_app_assoc.
  rewrite (csv_scan_start_bare RecordStart _ (or_introl eq_refl) Bi Ni).
  cbn [append]. rewrite csv_scan_comma by now left.
  rewrite !string_app_assoc, (csv_scan_in_quotes _ H1).
  cbn [append]. rewrite csv_scan_comma by now right.
  rewrite !string_app_assoc, (csv_scan_in_quotes _ H2).
  cbn [append]. rewrite csv_scan_comma by now right.
  rewrite !string_app_assoc, (csv_scan_in_quotes _ H3).
  cbn [append]. rewrite csv_scan_comma by now right.
  now rewrite (csv_scan_start_bare FieldStart _ (or_intror eq_refl) Bc Nc).
Qed.

Lemma string_app_empty (a : string) : a ++ EmptyString = a.
Proof.
  induction a as [|x a IH]; simpl; [reflexivity | now rewrite IH].
Qed.

Lemma csv_scan_rows (filtered : list LogEntry) :
  forallb (free_of dquote) filtered = true ->
  forall out,
    csv_scan RecordStart EmptyString [] out
      (join (String newline EmptyString) (map csv_row filtered)) =
    Some (out ++ map csv_values filtered)%list.
Proof.
  induction filtered as [|log rest IH]; intros H out.
  - simpl. now rewrite app_nil_r.
  - simpl in H. apply andb_true_iff in H. destruct H as [Hl Hr].
    assert (Hv : ([String_of_number (id log); request_id log; timestamp log;
                   decision log] ++ [risk_count log])%list = csv_values log).
    { unfold csv_values. now rewrite risk_count_spec. }
    destruct rest as [|log' rest'].
    + simpl map. unfold join. simpl String.concat.
      rewrite <- (string_app_empty (csv_row log)), (csv_scan_row log out _ Hl).
      cbn [csv_scan]. now rewrite Hv.
    + change (map csv_row (log :: log' :: rest'))
        with (csv_row log :: map csv_row (log' :: rest')).
      rewrite join_cons by discriminate.
      rewrite (csv_scan_row log out _ Hl), csv_scan_newline, (IH Hr), Hv.
      now rewrite <- app_assoc.
Qed.

(** Read with quoted fields, the export gives back the header and the five
    values of every record, whatever commas and line feeds the values
    hold, as long as they hold no double quote. *)
Lemma csv_read_csv_of (filtered : list LogEntry) :
  forallb (free_of dquote) filtered = true ->
  csv_read (csv_of filtered) = Some (csv_header_fields :: map csv_values filtered).
Proof.
  intros H. unfold csv_read. rewrite csv_of_unfold.
  change (csv_scan RecordStart EmptyString [] []
            ("id,request_id,timestamp,decision,risk_count" ++
             String newline (join (String newline EmptyString) (map csv_row filtered))))
    with (csv_scan RecordStart EmptyString [] [csv_header_fields]
            (join (String newline EmptyString) (map csv_row filtered))).
  now rewrite (csv_scan_rows filtered H).
Qed.

(** C10.  The client-side CSV serializer copies the values in as they are:
    every row is [String(id)], [,"], the request id, [","], the timestamp,
    [","], the decision, ["], [,] and the risk count, in that order.  Hence
    a request id with a comma yields a row of six comma-separated fields, and
    one with a double quote yields a row whose second field is not a
    well-formed quoted value. *)
Theorem csv_row_verbatim :
  (forall log,
     csv_row log =
     String_of_number (id log) ++ String comma (String dquote EmptyString) ++
     request_id log ++ String dquote (String comma (String dquote EmptyString)) ++
     timestamp log ++ String dquote (String comma (String dquote EmptyString)) ++
     decision log ++ String dquote EmptyString ++ String comma EmptyString ++
     risk_count log) /\
  (exists log,
     contains comma (request_id log) = true /\
     List.length (fields (csv_row log)) = 6%nat /\
     well_formed_row (csv_row log) = false) /\
  (exists log,
     contains dquote (request_id log) = true /\
     List.length (fields (csv_row log)) = 5%nat /\
     well_formed_row (csv_row log) = false).
Proof.
  split; [|split].
  - intros log. rewrite csv_row_unfold. unfold in_quotes. cbn [append].
    now rewrite !string_app_assoc.
  - exists log_with_comma. repeat split.
  - exists log_with_quote. repeat split.
Qed.

(* ------------------------------------------------------------------ *)
(** ** Routing and the local predicate *)

Lemma truthy_false_unset (o : option string) : truthy o = false <-> unset o.
Proof.
  unfold truthy, unset. destruct o as [s|].
  - rewrite negb_false_iff, String.eqb_eq. split.
    + intros ->. now right.
    + intros [H|H]; congruence.
  - split; [now left | reflexivity].
Qed.

Lemma hasTypeOrSeverity_spec (f : option Filters.t) :
  hasTypeOrSeverity f = truthy (filters_type f) || truthy (filters_severity f).
Proof.
  unfold hasTypeOrSeverity, or_else.
  destruct (truthy (filters_type f)) eqn:E; [exact E | reflexivity].
Qed.

Lemma some_risk_spec (proj : Risk -> string) (o : option string) (rs : list Risk) :
  (if truthy o then existsb (fun r => strict_eq (proj r) o) rs else true) = true <->
  unset o \/ exists r, In r rs /\ Some (proj r) = o.
Proof.
  destruct (truthy o) eqn:T.
  - rewrite existsb_exists. split.
    + intros (r & Hin & Heq). right. exists r. split; [assumption|].
      destruct o as [t|]; simpl in Heq; [|discriminate].
      apply String.eqb_eq in Heq. now subst.
    + intros [U | (r & Hin & Heq)].
      * apply truthy_false_unset in U. congruence.
      * exists r. split; [assumption|]. subst o. simpl. apply String.eqb_refl.
  - split; [|reflexivity]. intros _. left. now apply truthy_false_unset.
Qed.

(** The callback of the display path decides the predicate of the
    specification. *)
Lemma fetchLogs_keep_spec (ty sev : option string) (log : LogEntry) :
  fetchLogs_keep ty sev log = true <-> spec_matches ty sev log.
Proof.
  unfold fetchLogs_keep, spec_matches. rewrite andb_true_iff.
  now rewrite (some_risk_spec type), (some_risk_spec severity).
Qed.

Lemma fetchLogs_params_local (f : option Filters.t) (lim off : Z) :
  hasTypeOrSeverity f = true -> fetchLogs_params f lim off = bulk_params f.
Proof.
  unfold fetchLogs_params. now intros ->.
Qed.

Lemma handleExport_params_local (fmt : Format) (f : option Filters.t) :
  hasTypeOrSeverity f = true -> handleExport_params fmt f = bulk_params f.
Proof.
  unfold handleExport_params. now intros ->.
Qed.

Lemma getLogs_fetchLogs_params (f : option Filters.t) (lim off : Z) (reply : HttpReply) :
  getLogs (fetchLogs_params f lim off) reply =
  match fetchAPI reply with
  | Return r => Return (inl r)
  | Throw e => Throw e
  end.
Proof.
  unfold fetchLogs_params. now destruct (hasTypeOrSeverity f).
Qed.

(** What [fetchLogs] leaves in the cells when the bulk request of local mode
    is answered. *)
Lemma fetchLogs_try_local (cl : Closure) (text : string) (r : LogsResponse.t) (s : State) :
  hasTypeOrSeverity (c_filters cl) = true ->
  fetchLogs_try cl (Ok text (Some r)) s =
  let filtered :=
    filter (fetchLogs_keep (filters_type (c_filters cl)) (filters_severity (c_filters cl)))
           (LogsResponse.logs r) in
  Return (setLogs (slice filtered (c_offset cl) (c_offset cl + c_limit cl))
         (setHasMore (c_offset cl + c_limit cl <? Z.of_nat (List.length filtered))
         (setTotal (Z.of_nat (List.length filtered))
         (setClientAll filtered (setClientMode true s))))).
Proof.
  intros H. unfold fetchLogs_try. rewrite getLogs_fetchLogs_params. simpl.
  now rewrite H.
Qed.

Lemma fetchLogs_try_remote (cl : Closure) (text : string) (r : LogsResponse.t) (s : State) :
  hasTypeOrSeverity (c_filters cl) = false ->
  fetchLogs_try cl (Ok text (Some r)) s =
  Return (setHasMore (LogsResponse.has_more r)
         (setTotal (LogsResponse.total r)
         (setLogs (LogsResponse.logs r)
         (setClientAll [] (setClientMode false s))))).
Proof.
  intros H. unfold fetchLogs_try. rewrite getLogs_fetchLogs_params. simpl.
  now rewrite H.
Qed.

Lemma firstn_all_le {A : Type} (n : nat) (l : list A) :
  (List.length l <= n)%nat -> firstn n l = l.
Proof.
  revert n. induction l as [|a l IH]; intros n H; [now destruct n|].
  destruct n; simpl in *; [lia|]. rewrite IH; [reflexivity | lia].
Qed.

(** C2.  When [risk_type] and/or [severity] is set (non-empty), the reply to
    the bulk request (no type, no severity, the date range, limit 1000,
    offset 0) decides the authoritative set: provided the remote honours the
    limit, the cache is exactly the first 1000 returned records that satisfy
    the predicate of the specification, in the order returned, and the page
    shown is cut from it. *)
Theorem local_mode_displayed_set
    (c : Comp) (n : nat) (cl : Closure) (text : string) (response : LogsResponse.t) :
  nth_error (inflight c) n = Some cl ->
  hasTypeOrSeverity (c_filters cl) = true ->
  (List.length (LogsResponse.logs response) <= 1000)%nat ->
  let ty := filters_type (c_filters cl) in
  let sev := filters_severity (c_filters cl) in
  let s' := state (deliver n (Ok text (Some response)) c) in
  fetchLogs_params (c_filters cl) (c_limit cl) (c_offset cl) = bulk_params (c_filters cl) /\
  clientMode s' = true /\
  clientAll s' = filter (fetchLogs_keep ty sev) (firstn 1000 (LogsResponse.logs response)) /\
  (forall log, fetchLogs_keep ty sev log = true <-> spec_matches ty sev log) /\
  (forall log, In log (clientAll s') <->
               In log (firstn 1000 (LogsResponse.logs response)) /\ spec_matches ty sev log) /\
  logs s' = slice (clientAll s') (offset s') (offset s' + limit s').
Proof.
  intros Hn Hl Hlen ty sev s'.
  assert (Hs : s' = reslice (setLoading false
                 (setLogs (slice (filter (fetchLogs_keep ty sev) (LogsResponse.logs response))
                                 (c_offset cl) (c_offset cl + c_limit cl))
                 (setHasMore (c_offset cl + c_limit cl <?
                     Z.of_nat (List.length (filter (fetchLogs_keep ty sev)
                                                   (LogsResponse.logs response))))
                 (setTotal (Z.of_nat (List.length (filter (fetchLogs_keep ty sev)
                                                   (LogsResponse.logs response))))
                 (setClientAll (filter (fetchLogs_keep ty sev) (LogsResponse.logs response))
                 (setClientMode true (state c)))))))).
  { subst s'. unfold deliver. rewrite Hn. unfold fetchLogs_settle.
    rewrite (fetchLogs_try_local _ _ _ _ Hl). reflexivity. }
  rewrite firstn_all_le by assumption.
  split; [now apply fetchLogs_params_local|].
  rewrite Hs. unfold reslice. cbn.
  split; [reflexivity|]. split; [reflexivity|].
  split; [intros log; apply fetchLogs_keep_spec|].
  split; [|reflexivity].
  intros log. rewrite filter_In. now rewrite fetchLogs_keep_spec.
Qed.

Lemma local_mode_displayed_set_witness :
  clientAll (state (deliver 0 (Ok body (Some (page scenario_logs 3 1000 0 false)))
                            (mount pii_filters))) =
  filter (fetchLogs_keep (Some "pii") None) (firstn 1000 scenario_logs) /\
  filter (fetchLogs_keep (Some "pii") None) (firstn 1000 scenario_logs) =
  [sample_log 1 "req-1" "block" (Some [sample_risk "pii" "high"])].
Proof.
  split; [|reflexivity].
  refine (proj1 (proj2 (proj2
    (local_mode_displayed_set (mount pii_filters) 0
       {| c_filters := pii_filters; c_limit := 50; c_offset := 0 |}
       body (page scenario_logs 3 1000 0 false) _ _ _)))).
  - reflexivity.
  - reflexivity.
  - simpl. lia.
Defined.

(* ------------------------------------------------------------------ *)
(** ** Export *)

Lemma getLogs_bulk (f : option Filters.t) (text : string) (r : LogsResponse.t) :
  getLogs (bulk_params f) (Ok text (Some r)) = Return (inl r).
Proof. reflexivity. Qed.

(** C5.  With [risk_type]/[severity] set, the export path sends the same
    bulk request as the display path (type and severity stripped, limit 1000,
    offset 0), keeps records by the same predicate, and so serializes, for
    either format, exactly the record list that the display path stores as
    its cache for the same reply. *)
Theorem export_matches_display
    (stringify : LogsResponse.t -> string) (now : string) (format : Format)
    (cl : Closure) (s : State) (text : string) (response : LogsResponse.t) :
  hasTypeOrSeverity (c_filters cl) = true ->
  let reply := Ok text (Some response) in
  handleExport_params format (c_filters cl) =
    fetchLogs_params (c_filters cl) (c_limit cl) (c_offset cl) /\
  handleExport_params format (c_filters cl) = bulk_params (c_filters cl) /\
  (forall ty sev log, handleExport_keep ty sev log = fetchLogs_keep ty sev log) /\
  handleExport stringify now format (c_filters cl) reply =
    Download ("logs-" ++ iso_date now ++ extension format)
      {| Blob.parts :=
           serialize stringify format (clientAll (fetchLogs_settle cl reply s));
         Blob.type := mime format |}.
Proof.
  intros H reply.
  rewrite fetchLogs_params_local, handleExport_params_local by assumption.
  split; [reflexivity|]. split; [reflexivity|]. split; [reflexivity|].
  unfold handleExport, fetchLogs_settle. subst reply.
  rewrite handleExport_params_local, getLogs_bulk, fetchLogs_try_local by assumption.
  rewrite H. now destruct format.
Qed.

Lemma export_matches_display_witness :
  handleExport (fun _ => "{json}") "2024-05-06T07:08:09.000Z" csv pii_filters
    (Ok body (Some (page scenario_logs 3 1000 0 false))) =
  Download "logs-2024-05-06.csv"
    {| Blob.parts :=
         csv_of [sample_log 1 "req-1" "block" (Some [sample_risk "pii" "high"])];
       Blob.type := "text/csv" |}.
Proof.
  exact (proj2 (proj2 (proj2
    (export_matches_display (fun _ => "{json}") "2024-05-06T07:08:09.000Z" csv
       {| c_filters := pii_filters; c_limit := 50; c_offset := 0 |}
       initialState body (page scenario_logs 3 1000 0 false) eq_refl)))).
Defined.

(** C7.  With [risk_type]/[severity] set, the JSON export downloads
    [JSON.stringify] of the object [{ logs, total, limit, offset, has_more }]
    in which [logs] is the filtered array, [total] and [limit] are its
    length, [offset] is 0 and [has_more] is false. *)
Theorem json_export_object
    (stringify : LogsResponse.t -> string) (now : string)
    (filters : option Filters.t) (text : string) (response : LogsResponse.t) :
  hasTypeOrSeverity filters = true ->
  let filtered :=
    filter (handleExport_keep (filters_type filters) (filters_severity filters))
           (LogsResponse.logs response) in
  exists obj,
    handleExport stringify now json filters (Ok text (Some response)) =
      Download ("logs-" ++ iso_date now ++ ".json")
        {| Blob.parts := stringify obj; Blob.type := "application/json" |} /\
    LogsResponse.logs obj = filtered /\
    LogsResponse.total obj = Z.of_nat (List.length filtered) /\
    LogsResponse.limit obj = Z.of_nat (List.length filtered) /\
    LogsResponse.offset obj = 0 /\
    LogsResponse.has_more obj = false.
Proof.
  intros H filtered. exists (json_of filtered).
  split; [|repeat split].
  unfold handleExport.
  rewrite handleExport_params_local, getLogs_bulk by assumption.
  now rewrite H.
Qed.

Lemma json_export_object_witness :
  exists obj,
    handleExport (fun r => String_of_number (LogsResponse.total r))
      "2024-05-06T07:08:09.000Z" json pii_filters
      (Ok body (Some (page scenario_logs 3 1000 0 false))) =
      Download "logs-2024-05-06.json"
        {| Blob.parts := String_of_number (LogsResponse.total obj);
           Blob.type := "application/json" |} /\
    LogsResponse.logs obj =
      [sample_log 1 "req-1" "block" (Some [sample_risk "pii" "high"])] /\
    LogsResponse.total obj = 1 /\
    LogsResponse.limit obj = 1 /\
    LogsResponse.offset obj = 0 /\
    LogsResponse.has_more obj = false.
Proof.
  exact (json_export_object (fun r => String_of_number (LogsResponse.total r))
           "2024-05-06T07:08:09.000Z" pii_filters body
           (page scenario_logs 3 1000 0 false) eq_refl).
Defined.

(** C4, as amended.  With neither [risk_type] nor [severity] set, the export
    sends the criteria as they are together with [limit = 1000], [offset = 0]
    and the requested format; the text of a CSV reply is downloaded as it
    is, and a JSON reply is downloaded as [JSON.stringify] of the parsed
    reply. *)
Theorem remote_export_passthrough
    (stringify : LogsResponse.t -> string) (now : string) (format : Format)
    (filters : option Filters.t) :
  hasTypeOrSeverity filters = false ->
  handleExport_params format filters =
    {| Params.type := filters_type filters;
       Params.severity := filters_severity filters;
       Params.date_from := filters_date_from filters;
       Params.date_to := filters_date_to filters;
       Params.limit := Some 1000; Params.offset := Some 0;
       Params.format := Some format |} /\
  (forall text parsed,
     handleExport stringify now csv filters (Ok text parsed) =
     Download ("logs-" ++ iso_date now ++ ".csv")
       {| Blob.parts := text; Blob.type := "text/csv" |}) /\
  (forall text response,
     handleExport stringify now json filters (Ok text (Some response)) =
     Download ("logs-" ++ iso_date now ++ ".json")
       {| Blob.parts := stringify response; Blob.type := "application/json" |}).
Proof.
  intros H. unfold handleExport, handleExport_params. rewrite H.
  repeat split.
Qed.

Lemma remote_export_passthrough_witness :
  Params.limit (handleExport_params csv None) = Some 1000 /\
  handleExport (fun _ => "{json}") "2024-05-06T07:08:09.000Z" csv None
    (Ok "id,request_id,timestamp,decision,risk_count" None) =
  Download "logs-2024-05-06.csv"
    {| Blob.parts := "id,request_id,timestamp,decision,risk_count";
       Blob.type := "text/csv" |}.
Proof.
  destruct (remote_export_passthrough (fun _ => "{json}") "2024-05-06T07:08:09.000Z"
              csv None eq_refl) as (Hp & Hc & _).
  split.
  - now rewrite Hp.
  - apply Hc.
Defined.

(** C4, as stated, fails: the export request of remote mode is not unpaged,
    it asks for at most 1000 records from offset 0, for either format. *)
Lemma remote_export_is_paged :
  ~ unpaged (handleExport_params csv None) /\
  ~ unpaged (handleExport_params json None) /\
  Params.limit (handleExport_params csv None) = Some 1000 /\
  Params.offset (handleExport_params csv None) = Some 0.
Proof.
  repeat split; intros [H _]; discriminate H.
Qed.

(** C6, as amended.  With [type] or [severity] set and a successful bulk
    reply, the CSV export downloads a text that, read as CSV with quoted
    fields, is the header [id,request_id,timestamp,decision,risk_count]
    followed by exactly one record per filtered log, each of exactly five
    fields: the decimal id, the request id, the timestamp and the decision
    as they are (each written between double quotes), and the length of the
    record's risks array; this for every filtered list whose request ids,
    timestamps and decisions hold no double quote, commas and line feeds
    inside a value staying inside its quoted field.  When the values hold
    no comma and no line feed either, the same is true read the plain way,
    cutting at every line feed and every comma. *)
Theorem csv_export_reads_back
    (stringify : LogsResponse.t -> string) (now : string)
    (filters : option Filters.t) (text : string) (response : LogsResponse.t) :
  hasTypeOrSeverity filters = true ->
  let filtered :=
    filter (handleExport_keep (filters_type filters) (filters_severity filters))
           (LogsResponse.logs response) in
  forallb (free_of dquote) filtered = true ->
  handleExport stringify now csv filters (Ok text (Some response)) =
    Download ("logs-" ++ iso_date now ++ ".csv")
      {| Blob.parts := csv_of filtered; Blob.type := "text/csv" |} /\
  csv_read (csv_of filtered) = Some (csv_header_fields :: map csv_values filtered) /\
  List.length (map csv_values filtered) = List.length filtered /\
  (forallb (free_of comma) filtered = true ->
   forallb (free_of newline) filtered = true ->
   csv_export_shape filtered).
Proof.
  intros H filtered Hq. split; [|split; [|split]].
  - unfold handleExport.
    rewrite handleExport_params_local, getLogs_bulk by assumption.
    now rewrite H.
  - now apply csv_read_csv_of.
  - apply length_map.
  - intros Hc Hn. now apply csv_export_shape_plain_columns.
Qed.

Lemma csv_export_reads_back_witness :
  handleExport (fun _ => "{json}") "2024-05-06T07:08:09.000Z" csv pii_filters
    (Ok body (Some (page [pii_log_with_comma] 1 1000 0 false))) =
    Download "logs-2024-05-06.csv"
      {| Blob.parts := csv_of [pii_log_with_comma]; Blob.type := "text/csv" |} /\
  csv_read (csv_of [pii_log_with_comma]) =
    Some [csv_header_fields; csv_values pii_log_with_comma].
Proof.
  destruct (csv_export_reads_back (fun _ => "{json}") "2024-05-06T07:08:09.000Z"
              pii_filters body (page [pii_log_with_comma] 1 1000 0 false)
              eq_refl eq_refl) as (Hd & Hr & _).
  split; [exact Hd | exact Hr].
Defined.

(** C6, as stated, fails on records the export does serialize.  A record
    with a [pii] risk whose request id is [a], a double quote, a comma, a
    double quote and [b] passes the filter [type = pii], and its row has
    six fields, not five, whether the text is cut at its commas or read
    with quoted fields: the request id comes back as the two fields [a] and
    [b].  A request id with a single double quote inside gives a row that a
    reader of quoted fields rejects and whose second field is not a quoted
    value. *)
Lemma csv_export_counterexample :
  handleExport_keep (filters_type pii_filters) (filters_severity pii_filters)
    pii_log_six_fields = true /\
  handleExport (fun _ => "{json}") "2024-05-06T07:08:09.000Z" csv pii_filters
    (Ok body (Some (page [pii_log_six_fields] 1 1000 0 false))) =
    Download "logs-2024-05-06.csv"
      {| Blob.parts := csv_of [pii_log_six_fields]; Blob.type := "text/csv" |} /\
  text_lines (csv_of [pii_log_six_fields]) =
    ["id,request_id,timestamp,decision,risk_count"; csv_row pii_log_six_fields] /\
  List.length (fields (csv_row pii_log_six_fields)) = 6%nat /\
  csv_read (csv_of [pii_log_six_fields]) =
    Some [csv_header_fields; ["9"; "a"; "b"; "2024-05-06T07:08:09Z"; "allow"; "1"]] /\
  csv_read (csv_of [pii_log_six_fields]) <>
    Some [csv_header_fields; csv_values pii_log_six_fields] /\
  ~ csv_export_shape [pii_log_six_fields] /\
  handleExport_keep (filters_type pii_filters) (filters_severity pii_filters)
    pii_log_with_quote = true /\
  handleExport (fun _ => "{json}") "2024-05-06T07:08:09.000Z" csv pii_filters
    (Ok body (Some (page [pii_log_with_quote] 1 1000 0 false))) =
    Download "logs-2024-05-06.csv"
      {| Blob.parts := csv_of [pii_log_with_quote]; Blob.type := "text/csv" |} /\
  csv_read (csv_of [pii_log_with_quote]) = None /\
  well_formed_row (csv_row pii_log_with_quote) = false /\
  ~ csv_export_shape [pii_log_with_quote].
Proof.
  do 5 (split; [vm_compute; reflexivity|]).
  split; [vm_compute; discriminate|].
  split.
  { intros (rows & Hl & _ & Hf). vm_compute in Hl. injection Hl as <-.
    inversion Hf as [|? ? ? ? [_ Hrow] _]; subst. vm_compute in Hrow. discriminate. }
  do 4 (split; [vm_compute; reflexivity|]).
  intros (rows & Hl & _ & Hf). vm_compute in Hl. injection Hl as <-.
  inversion Hf as [|? ? ? ? [_ Hrow] _]; subst. vm_compute in Hrow. discriminate.
Qed.

(* ------------------------------------------------------------------ *)
(** ** The pager *)

Lemma slice_beyond {A : Type} (l : list A) (from to : Z) :
  Z.of_nat (List.length l) <= from -> slice l from to = [].
Proof.
  intros H. unfold slice.
  replace (Z.to_nat _) with 0%nat; [reflexivity|].
  destruct (from <? 0) eqn:Ef; destruct (to <? 0) eqn:Et;
    rewrite ?Z.ltb_lt, ?Z.ltb_ge in *; lia.
Qed.

Lemma slice_length {A : Type} (l : list A) (from to : Z) :
  0 <= from -> 0 <= to ->
  List.length (slice l from to) =
  Z.to_nat (Z.min to (Z.of_nat (List.length l)) - Z.min from (Z.of_nat (List.length l))).
Proof.
  intros Hf Ht. unfold slice.
  rewrite length_firstn, length_skipn.
  destruct (from <? 0) eqn:Ef; destruct (to <? 0) eqn:Et;
    rewrite ?Z.ltb_lt, ?Z.ltb_ge in *; lia.
Qed.

Lemma reslice_authoritative (s : State) :
  clientMode s = true -> cache_authoritative (reslice s).
Proof.
  intros H. unfold reslice. rewrite H. unfold cache_authoritative. cbn.
  repeat split; try reflexivity; apply Z.ltb_lt.
Qed.

Lemma clientMode_reslice (s : State) : clientMode (reslice s) = clientMode s.
Proof.
  unfold reslice. now destruct (clientMode s) eqn:E.
Qed.

Lemma offset_reslice (s : State) : offset (reslice s) = offset s.
Proof.
  unfold reslice. now destruct (clientMode s).
Qed.

Lemma limit_reslice (s : State) : limit (reslice s) = limit s.
Proof.
  unfold reslice. now destruct (clientMode s).
Qed.

Lemma offset_click_setOffset (v : Z) (c : Comp) :
  offset (state (click_setOffset v c)) = v.
Proof.
  unfold click_setOffset. destruct (v =? offset (state c)) eqn:E.
  - symmetry. now apply Z.eqb_eq.
  - cbn. now rewrite offset_reslice.
Qed.

(** A click that moves the offset sends a request, whatever the mode. *)
Lemma calls_click_setOffset (v : Z) (c : Comp) :
  v <> offset (state c) ->
  calls (click_setOffset v c) =
  (calls c ++ [fetchLogs_params (filters c) (limit (state c)) v])%list.
Proof.
  intros H. unfold click_setOffset.
  apply Z.eqb_neq in H. now rewrite H.
Qed.

(** In client mode the cells always agree with the cache, at every state the
    component reaches, replies arriving late or out of order included. *)
Lemma reachable_cache_authoritative (c : Comp) :
  reachable c -> clientMode (state c) = true -> cache_authoritative (state c).
Proof.
  induction 1 as [f | c c' Hc IH Hstep]; [discriminate|].
  destruct Hstep as [c _ | c _ | c f | c n reply _].
  - unfold click_previous, click_setOffset.
    destruct (_ =? _); [exact IH|]. cbn. intros H.
    apply reslice_authoritative. now rewrite clientMode_reslice in H.
  - unfold click_next, click_setOffset.
    destruct (_ =? _); [exact IH|]. cbn. intros H.
    apply reslice_authoritative. now rewrite clientMode_reslice in H.
  - exact IH.
  - unfold deliver. destruct (nth_error (inflight c) n) as [cl|]; [|exact IH].
    unfold fetchLogs_settle. cbn.
    destruct (fetchLogs_try cl reply (state c)) as [s1|e].
    + intros H. apply reslice_authoritative. now rewrite clientMode_reslice in H.
    + destruct e; exact IH.
Qed.

(** A reply is a success for [fetchLogs] exactly when it is a success
    status with a JSON body. *)
Lemma fetchLogs_try_Return (cl : Closure) (reply : HttpReply) (s s1 : State) :
  fetchLogs_try cl reply s = Return s1 ->
  exists text response, reply = Ok text (Some response).
Proof.
  unfold fetchLogs_try. rewrite getLogs_fetchLogs_params.
  destruct reply as [|text [response|]|status statusText [ | |detail]]; simpl;
    try discriminate.
  intros _. now exists text, response.
Qed.

(** *** The committed renders and the states after their effects *)

Lemma flush_commit_mount (f : option Filters.t) : flush (commit_mount f) = mount f.
Proof. reflexivity. Qed.

Lemma flush_commit_setOffset (v : Z) (c : Comp) :
  flush (commit_setOffset v c) = click_setOffset v c.
Proof.
  unfold commit_setOffset, click_setOffset. now destruct (v =? offset (state c)).
Qed.

Lemma flush_commit_filters (f : option Filters.t) (c : Comp) :
  flush (commit_filters f c) = change_filters f c.
Proof. reflexivity. Qed.

Lemma flush_commit_reply (n : nat) (reply : HttpReply) (c : Comp) :
  flush (commit_reply n reply c) = deliver n reply c.
Proof.
  unfold commit_reply, deliver, flush.
  destruct (nth_error (inflight c) n) as [cl|]; [|reflexivity]. cbn.
  now destruct (fetchLogs_try cl reply (state c)).
Qed.

Lemma rendered_settle (scr : Screen) :
  rendered scr -> rendered {| comp := flush scr; phase := Settled |}.
Proof.
  intros H. destruct (phase scr) eqn:E;
    try (apply rendered_flush; [exact H | rewrite E; discriminate]).
  destruct scr as [c ph]. simpl in E. subst ph. exact H.
Qed.

(** The states of [reachable] are the renders at which no effect is
    pending. *)
Lemma rendered_flush_reachable (scr : Screen) : rendered scr -> reachable (flush scr).
Proof.
  induction 1 as [f | scr Hs IH Hp | c Hc IH Hk | c Hc IH Hk | c f Hc IH | c n reply Hc IH Hn].
  - apply reachable_mount.
  - exact IH.
  - rewrite flush_commit_setOffset.
    apply (reachable_step c); [exact IH | now apply step_previous].
  - rewrite flush_commit_setOffset.
    apply (reachable_step c); [exact IH | now apply step_next].
  - apply (reachable_step c); [exact IH | apply step_filters].
  - rewrite flush_commit_reply.
    apply (reachable_step c); [exact IH | now apply step_reply].
Qed.

Lemma reachable_rendered (c : Comp) :
  reachable c -> rendered {| comp := c; phase := Settled |}.
Proof.
  induction 1 as [f | c c' Hc IH Hstep].
  - apply (rendered_settle (commit_mount f)), rendered_mount.
  - destruct Hstep as [c Hk | c Hk | c f | c n reply Hn].
    + pose proof (rendered_settle _ (rendered_previous c IH Hk)) as H.
      now rewrite flush_commit_setOffset in H.
    + pose proof (rendered_settle _ (rendered_next c IH Hk)) as H.
      now rewrite flush_commit_setOffset in H.
    + apply (rendered_settle (commit_filters f c)), rendered_filters, IH.
    + pose proof (rendered_settle _ (rendered_reply c n reply IH Hn)) as H.
      now rewrite flush_commit_reply in H.
Qed.

Lemma Forall_remove_nth {A : Type} (P : A -> Prop) (n : nat) (l : list A) :
  Forall P l -> Forall P (remove_nth n l).
Proof.
  intros H. revert n. induction H as [|a l Ha Hl IH]; intros [|n]; simpl;
    try constructor; auto.
Qed.

Lemma reslice_page_cut (s : State) :
  clientMode s = true -> page_cut_at (offset s) (reslice s).
Proof.
  intros H. unfold reslice. rewrite H. unfold page_cut_at. cbn.
  split; [reflexivity|]. split; [reflexivity | apply Z.ltb_lt].
Qed.

(** At every committed render: the page size is 50, the offset and the
    offsets that the waiting calls closed over are not negative, and in
    client mode the page on screen is cut from the cache at some offset
    [o >= 0], which is the current offset unless the re-slicing effect is
    still to run. *)
Lemma rendered_page_cut (scr : Screen) :
  rendered scr ->
  limit (state (comp scr)) = 50 /\
  0 <= offset (state (comp scr)) /\
  Forall (fun cl => c_limit cl = 50 /\ 0 <= c_offset cl) (inflight (comp scr)) /\
  (clientMode (state (comp scr)) = true ->
   exists o,
     0 <= o /\ page_cut_at o (state (comp scr)) /\
     (phase scr = Settled \/ phase scr = FetchOnly -> o = offset (state (comp scr)))).
Proof.
  induction 1 as [f | scr Hs IH Hp | c Hc IH Hk | c Hc IH Hk | c f Hc IH | c n reply Hc IH Hn].
  - cbn. repeat split; [lia | constructor | discriminate].
  - destruct IH as (Hl & Ho & Hin & Hcut). unfold flush.
    destruct (phase scr) eqn:E; [congruence | | |]; cbn.
    + rewrite limit_reslice, offset_reslice. cbn.
      split; [exact Hl|]. split; [exact Ho|]. split.
      * apply Forall_app. split; [exact Hin|]. constructor; [|constructor].
        cbn. now split.
      * intros Hm. exists (offset (state (comp scr))).
        split; [exact Ho|]. split; [|reflexivity].
        rewrite clientMode_reslice in Hm.
        apply (reslice_page_cut (fetchLogs_start (state (comp scr))) Hm).
    + split; [exact Hl|]. split; [exact Ho|]. split.
      * apply Forall_app. split; [exact Hin|]. constructor; [|constructor].
        cbn. now split.
      * intros Hm. destruct (Hcut Hm) as (o & Ho' & Hp' & Heq).
        exists o. split; [exact Ho'|]. split; [exact Hp'|].
        intros _. apply Heq. now right.
    + rewrite limit_reslice, offset_reslice.
      split; [exact Hl|]. split; [exact Ho|]. split; [exact Hin|].
      intros Hm. exists (offset (state (comp scr))).
      split; [exact Ho|]. split; [|reflexivity].
      rewrite clientMode_reslice in Hm.
      apply (reslice_page_cut (state (comp scr)) Hm).
  - destruct IH as (Hl & Ho & Hin & Hcut). cbn in Hl, Ho, Hin, Hcut.
    unfold commit_setOffset. destruct (_ =? _).
    + cbn. repeat split; assumption.
    + cbn. split; [exact Hl|]. split; [unfold onPrevious; lia|]. split; [exact Hin|].
      intros Hm. destruct (Hcut Hm) as (o & Ho' & Hp' & _).
      exists o. split; [exact Ho'|]. split; [exact Hp'|].
      intros [E|E]; discriminate E.
  - destruct IH as (Hl & Ho & Hin & Hcut). cbn in Hl, Ho, Hin, Hcut.
    unfold commit_setOffset. destruct (_ =? _).
    + cbn. repeat split; assumption.
    + cbn. split; [exact Hl|]. split; [unfold onNext; lia|]. split; [exact Hin|].
      intros Hm. destruct (Hcut Hm) as (o & Ho' & Hp' & _).
      exists o. split; [exact Ho'|]. split; [exact Hp'|].
      intros [E|E]; discriminate E.
  - destruct IH as (Hl & Ho & Hin & Hcut). cbn in Hl, Ho, Hin, Hcut. cbn.
    split; [exact Hl|]. split; [exact Ho|]. split; [exact Hin|].
    intros Hm. destruct (Hcut Hm) as (o & Ho' & Hp' & Heq).
    exists o. split; [exact Ho'|]. split; [exact Hp'|].
    intros _. apply Heq. now left.
  - destruct IH as (Hl & Ho & Hin & Hcut). cbn in Hl, Ho, Hin, Hcut.
    unfold commit_reply. destruct (nth_error (inflight c) n) as [cl|] eqn:En.
    2:{ cbn. repeat split; assumption. }
    assert (Hcl : c_limit cl = 50 /\ 0 <= c_offset cl).
    { rewrite Forall_forall in Hin. apply Hin. now apply (nth_error_In _ n). }
    destruct Hcl as [Hcl Hco]. cbn. unfold fetchLogs_settle.
    destruct (fetchLogs_try cl reply (state c)) as [s1|e] eqn:Ht.
    + destruct (fetchLogs_try_Return _ _ _ _ Ht) as (text & response & ->).
      destruct (hasTypeOrSeverity (c_filters cl)) eqn:Ef.
      * rewrite (fetchLogs_try_local _ _ _ _ Ef) in Ht. injection Ht as <-. cbn.
        split; [exact Hl|]. split; [exact Ho|].
        split; [now apply Forall_remove_nth|].
        intros _. exists (c_offset cl). split; [exact Hco|]. split.
        -- unfold page_cut_at. cbn. rewrite Hl, Hcl.
           split; [reflexivity|]. split; [reflexivity | apply Z.ltb_lt].
        -- intros [E|E]; discriminate E.
      * rewrite (fetchLogs_try_remote _ _ _ _ Ef) in Ht. injection Ht as <-. cbn.
        split; [exact Hl|]. split; [exact Ho|].
        split; [now apply Forall_remove_nth | discriminate].
    + assert (Hsame : forall s0, s0 = setLoading false (fetchLogs_catch e (state c)) ->
                limit s0 = 50 /\ 0 <= offset s0 /\
                (clientMode s0 = true ->
                 exists o, 0 <= o /\ page_cut_at o s0 /\
                   (Settled = Settled \/ Settled = FetchOnly -> o = offset s0))).
      { intros s0 ->. destruct e; cbn; (split; [exact Hl|]); (split; [exact Ho|]);
          intros Hm; destruct (Hcut Hm) as (o & Ho' & Hp' & Heq);
          exists o; (split; [exact Ho'|]); (split; [exact Hp'|]);
          intros _; apply Heq; now left. }
      destruct (Hsame _ eq_refl) as (H1 & H2 & H3).
      split; [exact H1|]. split; [exact H2|].
      split; [now apply Forall_remove_nth | exact H3].
Qed.


Lemma reachable_local_comp : reachable local_comp.
Proof.
  eapply reachable_step; [apply reachable_mount|].
  apply step_reply. simpl. lia.
Qed.





(** In local mode every click that moves the offset sends the bulk request
    again. *)
Lemma local_click_refetches (v : Z) (c : Comp) :
  hasTypeOrSeverity (filters c) = true ->
  v <> offset (state c) ->
  calls (click_setOffset v c) = (calls c ++ [bulk_params (filters c)])%list.
Proof.
  intros Hf Hv. rewrite calls_click_setOffset by assumption.
  now rewrite fetchLogs_params_local.
Qed.

(** C1 fails on the code.  In local mode at rest (a [type] filter, the cache
    of 60 matching records in place, no request in flight), "next" changes
    nothing but the offset; the cache is kept and re-sliced, and yet a second
    bulk request goes to the Remote Log Source, because the effect that calls
    [fetchLogs] lists [offset] among its dependencies. *)
Theorem offset_change_refetches_in_local_mode :
  let c := local_comp in
  let c' := click_next c in
  reachable c /\
  hasTypeOrSeverity (filters c) = true /\
  clientMode (state c) = true /\
  inflight c = [] /\
  calls c = [bulk_params pii_filters] /\
  step c c' /\
  filters c' = filters c /\
  limit (state c') = limit (state c) /\
  offset (state c) = 0 /\ offset (state c') = 50 /\
  clientAll (state c') = clientAll (state c) /\
  logs (state c') = slice (clientAll (state c)) 50 100 /\
  calls c' = [bulk_params pii_filters; bulk_params pii_filters] /\
  List.length (inflight c') = 1%nat.
Proof.
  cbv zeta. split; [apply reachable_local_comp|].
  do 4 (split; [vm_compute; reflexivity|]).
  split; [apply step_next; vm_compute; reflexivity|].
  repeat (split; [vm_compute; reflexivity|]). vm_compute; reflexivity.
Qed.





(* ------------------------------------------------------------------ *)
(** ** Failures *)

Lemma String_neq_empty (a : ascii) (s : string) : String a s <> EmptyString.
Proof. discriminate. Qed.

Lemma truthy_Some (m : string) : m <> EmptyString -> truthy (Some m) = true.
Proof.
  intros H. unfold truthy. apply negb_true_iff. now apply String.eqb_neq.
Qed.

(** The cells after a [fetchLogs] whose request failed: the message of the
    error, nothing else touched, [loading] off. *)
Lemma fetchLogs_settle_failure (cl : Closure) (reply : HttpReply) (s : State) :
  is_failure reply = true ->
  exists e,
    fetchAPI reply = Throw e /\
    fetchLogs_try cl reply s = Throw e /\
    fetchLogs_settle cl reply s = setLoading false (fetchLogs_catch e s).
Proof.
  intros H. unfold fetchLogs_settle, fetchLogs_try.
  rewrite getLogs_fetchLogs_params.
  destruct reply as [|text parsed|status statusText [ | |detail]]; [|discriminate| | |];
    simpl; eexists; repeat split.
Qed.

(** What a failed fetch leaves in [error], and when the component shows it:
    the message is [Failed to fetch logs] for a network failure and for an
    error body that is the JSON [null]; otherwise it is the [detail] of the
    body converted to a string when that [detail] is truthy (the status text
    standing in for a body that is not JSON), and [API request failed:
    <status text>] when it is not.  The error view appears exactly when the
    message is not empty. *)
Lemma fetch_failure_message
    (c : Comp) (n : nat) (cl : Closure) (reply : HttpReply) :
  nth_error (inflight c) n = Some cl ->
  is_failure reply = true ->
  let s' := state (deliver n reply c) in
  loading s' = false /\
  exists msg,
    error s' = Some msg /\
    (msg <> EmptyString -> render s' = ErrorView msg) /\
    (msg = EmptyString -> forall m, render s' <> ErrorView m) /\
    match reply with
    | NetworkError => msg = "Failed to fetch logs"
    | NotOk _ statusText BodyNull => msg = "Failed to fetch logs"
    | NotOk _ statusText BodyNotJson =>
        msg = js_or (Some (js_string statusText)) ("API request failed: " ++ statusText)
    | NotOk _ statusText (BodyJson detail) =>
        msg = js_or detail ("API request failed: " ++ statusText)
    | Ok _ _ => False
    end.
Proof.
  intros Hn Hf s'.
  destruct (fetchLogs_settle_failure cl reply (state c) Hf) as (e & Ha & Ht & Hs).
  assert (Es : s' = setLoading false (fetchLogs_catch e (state c))).
  { subst s'. unfold deliver. rewrite Hn, Ht. exact Hs. }
  rewrite Es. split; [reflexivity|].
  assert (Hshow : forall m,
            error (setLoading false (setError (Some m) (state c))) = Some m /\
            (m <> EmptyString ->
             render (setLoading false (setError (Some m) (state c))) = ErrorView m) /\
            (m = EmptyString ->
             forall m', render (setLoading false (setError (Some m) (state c)))
                        <> ErrorView m')).
  { intros m. split; [reflexivity|]. split.
    - intros Hm. unfold render. cbn -[truthy]. now rewrite (truthy_Some _ Hm).
    - intros -> m'. unfold render. cbn. discriminate. }
  destruct reply as [|text parsed|status statusText [ | |detail]]; try discriminate;
    simpl in Ha; injection Ha as <-; cbn [fetchLogs_catch];
    eexists; (split; [apply Hshow|]); (split; [apply Hshow|]);
    (split; [apply Hshow | reflexivity]).
Qed.

(** C9 fails on the code.  A status 500 whose JSON body is
    [{"detail": []}] is a failure of the Remote Log Source call, yet
    [fetchAPI] keeps the truthy [[]] through [||], [super(message)] turns it
    into the empty string, [fetchLogs] stores that in [error], and the
    component, which tests [if (error)], shows the table (here the empty
    table of a first load) instead of the error view: the failure is not
    observable.  With a [detail] that is an array of objects the error view
    appears but reads [[object Object]], not the server's message. *)
Theorem failure_with_array_detail_not_shown :
  let reply := NotOk 500 "Internal Server Error" (BodyJson (Some js_empty_array)) in
  let c := deliver 0 reply (mount None) in
  is_failure reply = true /\
  reachable c /\
  inflight c = [] /\
  loading (state c) = false /\
  error (state c) = Some EmptyString /\
  render (state c) = TableView [] 0 true true /\
  (forall m, render (state c) <> ErrorView m) /\
  render (state (deliver 0 (NotOk 422 "Unprocessable Entity"
                              (BodyJson (Some js_object_array)))
                   (mount None))) = ErrorView "[object Object]".
Proof.
  cbv zeta. split; [reflexivity|]. split.
  - eapply reachable_step; [apply reachable_mount|]. apply step_reply. simpl. lia.
  - repeat (split; [reflexivity|]). split; [|reflexivity].
    intros m. vm_compute. discriminate.
Qed.

(* ================================================================== *)
(** * Further properties of the component and of the client *)

(* ------------------------------------------------------------------ *)
(** ** What the local filter lets through *)

Lemma existsb_cons_inv {A : Type} (f : A -> bool) (l : list A) :
  existsb f l = true -> exists a t, l = a :: t.
Proof.
  destruct l as [|a t]; [discriminate|]. intros _. now exists a, t.
Qed.

Lemma risks_or_empty_cons (log : LogEntry) (r : Risk) (rs : list Risk) :
  risks_or_empty log = r :: rs -> has_risk log.
Proof.
  unfold risks_or_empty, has_risk. destruct (risks log) as [l|]; [|discriminate].
  intros ->. now exists r, rs.
Qed.

(** With a non-empty [type] or [severity], a record that the callback keeps
    has at least one risk. *)
Lemma fetchLogs_keep_has_risk (ty sev : option string) (log : LogEntry) :
  truthy ty || truthy sev = true ->
  fetchLogs_keep ty sev log = true -> has_risk log.
Proof.
  unfold fetchLogs_keep. intros Ht Hk. apply andb_true_iff in Hk. destruct Hk as [H1 H2].
  destruct (truthy ty).
  - apply existsb_cons_inv in H1. destruct H1 as (r & rs & E).
    now apply (risks_or_empty_cons _ r rs).
  - simpl in Ht. rewrite Ht in H2.
    apply existsb_cons_inv in H2. destruct H2 as (r & rs & E).
    now apply (risks_or_empty_cons _ r rs).
Qed.

Lemma filter_keep_has_risk (f : option Filters.t) (l : list LogEntry) :
  hasTypeOrSeverity f = true ->
  Forall has_risk (filter (fetchLogs_keep (filters_type f) (filters_severity f)) l).
Proof.
  intros H. rewrite hasTypeOrSeverity_spec in H.
  apply Forall_forall. intros log Hin. apply filter_In in Hin.
  destruct Hin as [_ Hk]. now apply (fetchLogs_keep_has_risk _ _ _ H).
Qed.

Lemma fetchLogs_try_clientAll (cl : Closure) (reply : HttpReply) (s s1 : State) :
  fetchLogs_try cl reply s = Return s1 -> Forall has_risk (clientAll s1).
Proof.
  intros H. destruct (fetchLogs_try_Return _ _ _ _ H) as (text & response & ->).
  destruct (hasTypeOrSeverity (c_filters cl)) eqn:E.
  - rewrite (fetchLogs_try_local _ _ _ _ E) in H. injection H as <-. cbn.
    now apply filter_keep_has_risk.
  - rewrite (fetchLogs_try_remote _ _ _ _ E) in H. injection H as <-. cbn.
    constructor.
Qed.

Lemma clientAll_reslice (s : State) : clientAll (reslice s) = clientAll s.
Proof.
  unfold reslice. now destruct (clientMode s).
Qed.

(** The cache never holds a record without risks. *)
Lemma reachable_cache_has_risk (c : Comp) :
  reachable c -> Forall has_risk (clientAll (state c)).
Proof.
  induction 1 as [f | c c' Hc IH Hstep]; [constructor|].
  destruct Hstep as [c _ | c _ | c f | c n reply _].
  - unfold click_previous, click_setOffset.
    destruct (_ =? _); [exact IH|]. cbn. now rewrite clientAll_reslice.
  - unfold click_next, click_setOffset.
    destruct (_ =? _); [exact IH|]. cbn. now rewrite clientAll_reslice.
  - exact IH.
  - unfold deliver. destruct (nth_error (inflight c) n) as [cl|]; [|exact IH].
    unfold fetchLogs_settle. cbn.
    destruct (fetchLogs_try cl reply (state c)) as [s1|e] eqn:Ht.
    + rewrite clientAll_reslice. cbn. now apply (fetchLogs_try_clientAll _ _ _ _ Ht).
    + destruct e; exact IH.
Qed.

Lemma In_firstn {A : Type} (x : A) (n : nat) (l : list A) :
  In x (firstn n l) -> In x l.
Proof.
  revert l. induction n as [|n IH]; intros [|a l]; simpl; try tauto.
  intros [H|H]; [now left | right; now apply IH].
Qed.

Lemma In_skipn {A : Type} (x : A) (n : nat) (l : list A) :
  In x (skipn n l) -> In x l.
Proof.
  revert l. induction n as [|n IH]; intros [|a l]; simpl; try tauto.
  intros H. right. now apply IH.
Qed.

Lemma In_slice {A : Type} (x : A) (l : list A) (from to : Z) :
  In x (slice l from to) -> In x l.
Proof.
  unfold slice. intros H. apply In_firstn in H. now apply In_skipn in H.
Qed.

(** X1.  In client mode every row on screen renders: each displayed record,
    and each record of the cache, has a risks array with at least one risk,
    so the unguarded [log.risks.length] of the table body does not throw. *)
Theorem client_mode_rows_render (toLocaleString : string -> string) (c : Comp) :
  reachable c ->
  clientMode (state c) = true ->
  Forall has_risk (clientAll (state c)) /\
  Forall (fun log => has_risk log /\ exists row, render_row toLocaleString log = Return row)
         (logs (state c)).
Proof.
  intros Hr Hm. pose proof (reachable_cache_has_risk c Hr) as Hall.
  split; [exact Hall|].
  destruct (reachable_cache_authoritative c Hr Hm) as (Hl & _ & _).
  apply Forall_forall. intros log Hin. rewrite Hl in Hin. apply In_slice in Hin.
  rewrite Forall_forall in Hall. specialize (Hall log Hin).
  split; [exact Hall|].
  destruct Hall as (r & rs & E). unfold render_row. rewrite E. eexists. reflexivity.
Qed.

Lemma client_mode_rows_render_witness :
  Forall (fun log => has_risk log /\ exists row, render_row (fun t => t) log = Return row)
         (logs (state local_comp)).
Proof.
  exact (proj2 (client_mode_rows_render (fun t => t) local_comp
                  reachable_local_comp eq_refl)).
Defined.

(** X2.  With [type] or [severity] set, the client-side export serializes
    only records that have at least one risk: the fallback of
    [log.risks?.length ?? 0] is never taken, no exported row counts 0
    risks. *)
Theorem local_export_rows_have_risks
    (stringify : LogsResponse.t -> string) (now : string) (format : Format)
    (filters : option Filters.t) (text : string) (response : LogsResponse.t) :
  hasTypeOrSeverity filters = true ->
  exists filtered,
    handleExport stringify now format filters (Ok text (Some response)) =
      Download ("logs-" ++ iso_date now ++ extension format)
        {| Blob.parts := serialize stringify format filtered; Blob.type := mime format |} /\
    Forall has_risk filtered /\
    Forall (fun log => exists r rs,
              risks log = Some (r :: rs) /\
              risk_count log = String_of_number (Z.of_nat (S (List.length rs))))
           filtered.
Proof.
  intros H.
  exists (filter (handleExport_keep (filters_type filters) (filters_severity filters))
                 (LogsResponse.logs response)).
  assert (Hall : Forall has_risk
            (filter (handleExport_keep (filters_type filters) (filters_severity filters))
                    (LogsResponse.logs response))).
  { now apply filter_keep_has_risk. }
  split; [|split; [exact Hall|]].
  - unfold handleExport.
    rewrite handleExport_params_local, getLogs_bulk by assumption.
    rewrite H. now destruct format.
  - eapply Forall_impl; [|exact Hall].
    intros log (r & rs & E). exists r, rs. split; [exact E|].
    unfold risk_count. now rewrite E.
Qed.

Lemma local_export_rows_have_risks_witness :
  exists filtered,
    handleExport (fun _ => "{json}") "2024-05-06T07:08:09.000Z" csv pii_filters
      (Ok body (Some (page scenario_logs 3 1000 0 false))) =
      Download "logs-2024-05-06.csv"
        {| Blob.parts := csv_of filtered; Blob.type := "text/csv" |} /\
    Forall has_risk filtered.
Proof.
  destruct (local_export_rows_have_risks (fun _ => "{json}") "2024-05-06T07:08:09.000Z"
              csv pii_filters body (page scenario_logs 3 1000 0 false) eq_refl)
    as (filtered & Hd & Hr & _).
  exists filtered. split; [exact Hd | exact Hr].
Defined.

Lemma filter_twice {A : Type} (f g : A -> bool) (l : list A) :
  filter g (filter f l) = filter (fun x => f x && g x) l.
Proof.
  induction l as [|a l IH]; simpl; [reflexivity|].
  destruct (f a); simpl; [|exact IH].
  destruct (g a); now rewrite IH.
Qed.

Lemma fetchLogs_keep_split (ty sev : option string) (log : LogEntry) :
  fetchLogs_keep ty sev log = fetchLogs_keep ty None log && fetchLogs_keep None sev log.
Proof.
  unfold fetchLogs_keep. simpl. now rewrite andb_true_r.
Qed.

(** X3.  Filtering by type and severity together is filtering by type and
    then by severity, in either order; so asking for both never shows a
    record that asking for one of them alone would hide. *)
Theorem filter_by_both_composes (ty sev : option string) (l : list LogEntry) :
  filter (fetchLogs_keep ty sev) l =
    filter (fetchLogs_keep None sev) (filter (fetchLogs_keep ty None) l) /\
  filter (fetchLogs_keep ty sev) l =
    filter (fetchLogs_keep ty None) (filter (fetchLogs_keep None sev) l) /\
  incl (filter (fetchLogs_keep ty sev) l) (filter (fetchLogs_keep ty None) l) /\
  incl (filter (fetchLogs_keep ty sev) l) (filter (fetchLogs_keep None sev) l).
Proof.
  assert (E1 : filter (fetchLogs_keep ty sev) l =
               filter (fetchLogs_keep None sev) (filter (fetchLogs_keep ty None) l)).
  { rewrite filter_twice. apply filter_ext. intros log. apply fetchLogs_keep_split. }
  assert (E2 : filter (fetchLogs_keep ty sev) l =
               filter (fetchLogs_keep ty None) (filter (fetchLogs_keep None sev) l)).
  { rewrite filter_twice. apply filter_ext. intros log.
    rewrite fetchLogs_keep_split. apply andb_comm. }
  split; [exact E1|]. split; [exact E2|]. split.
  - rewrite E2. intros x Hx. apply filter_In in Hx. destruct Hx as [Hx Hk].
    apply filter_In in Hx. apply filter_In. split; [apply Hx | exact Hk].
  - rewrite E1. intros x Hx. apply filter_In in Hx. destruct Hx as [Hx Hk].
    apply filter_In in Hx. apply filter_In. split; [apply Hx | exact Hk].
Qed.

(* ------------------------------------------------------------------ *)
(** ** Pages *)

Lemma firstn_app_skipn {A : Type} (a b : nat) (l : list A) :
  (firstn a l ++ firstn b (skipn a l))%list = firstn (a + b) l.
Proof.
  revert l. induction a as [|a IH]; intros l; [reflexivity|].
  destruct l as [|x l]; simpl; [now rewrite firstn_nil | now rewrite IH].
Qed.

(** On natural bounds [slice] is [firstn] after [skipn]. *)
Lemma slice_firstn_skipn {A : Type} (l : list A) (a b : nat) :
  slice l (Z.of_nat a) (Z.of_nat a + Z.of_nat b) = firstn b (skipn a l).
Proof.
  unfold slice.
  destruct (Z.of_nat a <? 0) eqn:Ea; [apply Z.ltb_lt in Ea; lia|].
  destruct (Z.of_nat a + Z.of_nat b <? 0) eqn:Eb; [apply Z.ltb_lt in Eb; lia|].
  destruct (Nat.le_gt_cases a (List.length l)) as [Hle|Hgt].
  - replace (Z.to_nat (Z.min (Z.of_nat a) (Z.of_nat (List.length l)))) with a by lia.
    destruct (Nat.le_gt_cases (a + b) (List.length l)) as [Hle'|Hgt'].
    + f_equal. lia.
    + rewrite !firstn_all2; [reflexivity | |]; rewrite length_skipn; lia.
  - replace (Z.to_nat (Z.min (Z.of_nat a) (Z.of_nat (List.length l))))
      with (List.length l) by lia.
    rewrite skipn_all, (skipn_all2 l) by lia. now rewrite !firstn_nil.
Qed.

Lemma page_at_nat {A : Type} (l : list A) (L k : nat) :
  page_at l (Z.of_nat L) k = firstn L (skipn (k * L) l).
Proof.
  unfold page_at. rewrite <- Nat2Z.inj_mul. apply slice_firstn_skipn.
Qed.

Lemma concat_pages {A : Type} (l : list A) (L n : nat) :
  List.concat (map (page_at l (Z.of_nat L)) (seq 0 n)) = firstn (n * L) l.
Proof.
  induction n as [|n IH]; [reflexivity|].
  rewrite seq_S, map_app, concat_app, IH. simpl List.concat.
  rewrite app_nil_r, page_at_nat, firstn_app_skipn. f_equal. lia.
Qed.

Lemma page_at_not_nil {A : Type} (l : list A) (L k : nat) :
  (0 < L)%nat ->
  page_at l (Z.of_nat L) k <> [] <-> (k * L < List.length l)%nat.
Proof.
  intros HL. rewrite page_at_nat.
  assert (Hlen : List.length (firstn L (skipn (k * L) l)) =
                 Nat.min L (List.length l - k * L)).
  { now rewrite length_firstn, length_skipn. }
  split.
  - intros H. destruct (firstn L (skipn (k * L) l)) eqn:E; [congruence|].
    simpl in Hlen. lia.
  - intros H E. rewrite E in Hlen. simpl in Hlen. lia.
Qed.

(** X4.  For a page size [L > 0], the pages cut at offsets [0, L, 2L, ...]
    put end to end are the cache, each record once and in order; no page
    holds more than [L] rows; and on the page at offset [kL] in client mode
    the pager shows exactly that page and enables "next" exactly when the
    page after it has rows. *)
Theorem pages_partition_cache (cache : list LogEntry) (L : Z) (n : nat) :
  0 < L ->
  Z.of_nat (List.length cache) <= Z.of_nat n * L ->
  List.concat (map (page_at cache L) (seq 0 n)) = cache /\
  (forall k, Z.of_nat (List.length (page_at cache L k)) <= L) /\
  (forall k s,
     clientMode s = true -> clientAll s = cache ->
     limit s = L -> offset s = Z.of_nat k * L ->
     logs (reslice s) = page_at cache L k /\
     (hasMore (reslice s) = true <-> page_at cache L (S k) <> [])).
Proof.
  intros HL Hn.
  assert (EL : L = Z.of_nat (Z.to_nat L)) by lia.
  split; [|split].
  - rewrite EL, concat_pages. apply firstn_all2. nia.
  - intros k. rewrite EL at 1. rewrite page_at_nat, length_firstn. lia.
  - intros k s Hm Hc Hl Ho. unfold reslice. rewrite Hm. cbn.
    rewrite Hc, Hl, Ho. split; [reflexivity|].
    rewrite Z.ltb_lt. rewrite EL at 3. rewrite page_at_not_nil by lia.
    rewrite Nat2Z.inj_lt, Nat2Z.inj_mul, Nat2Z.inj_succ, <- EL. lia.
Qed.

Lemma pages_partition_cache_witness :
  List.concat (map (page_at (pii_logs 7) 3) (seq 0 3)) = pii_logs 7.
Proof.
  refine (proj1 (pages_partition_cache (pii_logs 7) 3 3 _ _)).
  - reflexivity.
  - vm_compute. discriminate.
Defined.

(* ------------------------------------------------------------------ *)
(** ** What the events keep *)

Lemma fetchLogs_settle_keeps (cl : Closure) (reply : HttpReply) (s : State) :
  limit (fetchLogs_settle cl reply s) = limit s /\
  offset (fetchLogs_settle cl reply s) = offset s.
Proof.
  unfold fetchLogs_settle.
  destruct (fetchLogs_try cl reply s) as [s1|e] eqn:Ht.
  - destruct (fetchLogs_try_Return _ _ _ _ Ht) as (text & response & ->).
    destruct (hasTypeOrSeverity (c_filters cl)) eqn:E.
    + rewrite (fetchLogs_try_local _ _ _ _ E) in Ht. injection Ht as <-. now cbn.
    + rewrite (fetchLogs_try_remote _ _ _ _ E) in Ht. injection Ht as <-. now cbn.
  - destruct e; now cbn.
Qed.

Lemma deliver_keeps (n : nat) (reply : HttpReply) (c : Comp) :
  limit (state (deliver n reply c)) = limit (state c) /\
  offset (state (deliver n reply c)) = offset (state c) /\
  filters (deliver n reply c) = filters c /\
  calls (deliver n reply c) = calls c.
Proof.
  unfold deliver. destruct (nth_error (inflight c) n) as [cl|]; [|repeat split].
  cbn. destruct (fetchLogs_settle_keeps cl reply (state c)) as [Hl Ho].
  destruct (fetchLogs_try cl reply (state c));
    rewrite ?limit_reslice, ?offset_reslice; repeat split; assumption.
Qed.

Lemma length_remove_nth {A : Type} (n : nat) (l : list A) :
  (n < List.length l)%nat -> S (List.length (remove_nth n l)) = List.length l.
Proof.
  revert l. induction n as [|n IH]; intros [|a l] H; simpl in *; try lia.
  rewrite IH; lia.
Qed.

(** The page size never changes, and the offset is a non-negative multiple
    of it. *)
Lemma reachable_limit_offset (c : Comp) :
  reachable c ->
  limit (state c) = 50 /\ exists k : nat, offset (state c) = 50 * Z.of_nat k.
Proof.
  induction 1 as [f | c c' Hc [IHl [k IHo]] Hstep].
  - split; [reflexivity | now exists 0%nat].
  - destruct Hstep as [c _ | c _ | c f | c n reply _].
    + unfold click_previous. split.
      * unfold click_setOffset. destruct (_ =? _); [exact IHl|].
        cbn. now rewrite limit_reslice.
      * rewrite offset_click_setOffset. unfold onPrevious. rewrite IHl, IHo.
        exists (k - 1)%nat. lia.
    + unfold click_next. split.
      * unfold click_setOffset. destruct (_ =? _); [exact IHl|].
        cbn. now rewrite limit_reslice.
      * rewrite offset_click_setOffset. unfold onNext. rewrite IHl, IHo.
        exists (S k). lia.
    + split; [exact IHl | now exists k].
    + destruct (deliver_keeps n reply c) as (Hl & Ho & _).
      rewrite Hl, Ho. split; [exact IHl | now exists k].
Qed.

(** X5.  At every state the component reaches the page size is 50 (nothing
    ever calls [setLimit]) and the offset is a non-negative multiple of 50:
    paging only ever lands on page boundaries, never below zero. *)
Theorem page_size_fixed_offset_aligned (c : Comp) :
  reachable c ->
  limit (state c) = 50 /\
  0 <= offset (state c) /\
  exists k : nat, offset (state c) = Z.of_nat k * limit (state c).
Proof.
  intros Hr. destruct (reachable_limit_offset c Hr) as [Hl [k Ho]].
  split; [exact Hl|]. split; [lia|]. exists k. lia.
Qed.

Lemma page_size_fixed_offset_aligned_witness :
  limit (state (click_next local_comp)) = 50 /\
  0 <= offset (state (click_next local_comp)).
Proof.
  assert (Hr : reachable (click_next local_comp)).
  { eapply reachable_step; [apply reachable_local_comp|].
    apply step_next. vm_compute. reflexivity. }
  destruct (page_size_fixed_offset_aligned (click_next local_comp) Hr) as (Hl & Ho & _).
  split; [exact Hl | exact Ho].
Defined.

Lemma remove_nth_spec {A : Type} (n : nat) (l : list A) (a : A) :
  nth_error l n = Some a ->
  l = (firstn n (remove_nth n l) ++ a :: skipn n (remove_nth n l))%list.
Proof.
  revert l. induction n as [|n IH]; intros [|x l] H; simpl in *; try discriminate.
  - now injection H as ->.
  - destruct l as [|y l']; [destruct n; discriminate|].
    simpl. f_equal. exact (IH (y :: l') H).
Qed.

(** X6.  A reply, whatever it says, leaves [limit] and [offset] as they
    are (the cells the effect that fetches depends on), in the render it
    commits and after the effects of that render, and takes exactly the call
    it answers off the waiting list: the calls before it and after it stay,
    in their order. *)
Theorem reply_keeps_fetch_dependencies
    (c : Comp) (n : nat) (cl : Closure) (reply : HttpReply) :
  nth_error (inflight c) n = Some cl ->
  let c0 := comp (commit_reply n reply c) in
  let c' := deliver n reply c in
  limit (state c0) = limit (state c) /\
  offset (state c0) = offset (state c) /\
  limit (state c') = limit (state c) /\
  offset (state c') = offset (state c) /\
  inflight c0 = inflight c' /\
  inflight c = (firstn n (inflight c') ++ cl :: skipn n (inflight c'))%list.
Proof.
  intros Hn c0 c'.
  destruct (deliver_keeps n reply c) as (Hl & Ho & _ & _).
  destruct (fetchLogs_settle_keeps cl reply (state c)) as [Hl0 Ho0].
  assert (Ei : inflight c' = remove_nth n (inflight c)).
  { subst c'. unfold deliver. now rewrite Hn. }
  subst c0. unfold commit_reply. rewrite Hn. cbn.
  split; [exact Hl0|]. split; [exact Ho0|]. split; [exact Hl|]. split; [exact Ho|].
  split; [now rewrite Ei|]. rewrite Ei. now apply remove_nth_spec.
Qed.

Lemma reply_keeps_fetch_dependencies_witness :
  offset (state (deliver 0 NetworkError (click_next local_comp))) = 50 /\
  inflight (click_next local_comp) =
    [ {| c_filters := pii_filters; c_limit := 50; c_offset := 50 |} ].
Proof.
  pose proof (reply_keeps_fetch_dependencies (click_next local_comp) 0
                {| c_filters := pii_filters; c_limit := 50; c_offset := 50 |}
                NetworkError) as H.
  cbv zeta in H. destruct H as (_ & _ & _ & Ho & _ & Hi); [vm_compute; reflexivity|].
  split.
  - etransitivity; [exact Ho | vm_compute; reflexivity].
  - etransitivity; [exact Hi | vm_compute; reflexivity].
Defined.

(* ------------------------------------------------------------------ *)
(** ** The caption and the offset across a filter change *)

(** X7.  In client mode, at every render with no effect pending (the
    re-slicing effect has run), the caption agrees with the table: the
    number of rows on screen is the size of the range [offset + 1 ..
    min(offset + limit, total)] that the caption announces, an empty range
    when the offset is at or beyond the total, and with an empty cache on
    the first page the caption reads [Showing 1-0 of 0 logs].  At the
    renders committed before that effect the rows are those of the offset
    [o] the page was cut at, [max(0, min(o + limit, total) - o)] of them,
    while the caption already uses the current offset. *)
Theorem caption_counts_rows (scr : Screen) :
  rendered scr ->
  clientMode (state (comp scr)) = true ->
  let s := state (comp scr) in
  (exists o,
     0 <= o /\
     Z.of_nat (List.length (logs s)) = Z.max 0 (Z.min (o + limit s) (total s) - o) /\
     (phase scr = Settled -> o = offset s)) /\
  (phase scr = Settled ->
   Z.of_nat (List.length (logs s)) = Z.max 0 (showing_to s - showing_from s + 1) /\
   (clientAll s = [] -> offset s = 0 -> caption s = "Showing 1-0 of 0 logs")).
Proof.
  intros Hr Hm s.
  destruct (rendered_page_cut scr Hr) as (Hlim & _ & _ & Hcut).
  destruct (Hcut Hm) as (o & Ho & (Hl & Ht & _) & Heq). fold s in Hlim, Hl, Ht, Heq.
  assert (Hrows : Z.of_nat (List.length (logs s)) =
                  Z.max 0 (Z.min (o + limit s) (total s) - o)).
  { rewrite Hl, slice_length by lia. rewrite Ht. lia. }
  split.
  - exists o. split; [exact Ho|]. split; [exact Hrows|].
    intros E. apply Heq. now left.
  - intros E. rewrite (Heq (or_introl E)) in Hrows. split.
    + unfold showing_to, showing_from. lia.
    + intros Hc H0. unfold caption, showing_from, showing_to.
      rewrite Ht, Hc, H0, Hlim. reflexivity.
Qed.

Lemma caption_counts_rows_witness :
  Z.of_nat (List.length (logs (state (click_next local_comp)))) =
  Z.max 0 (showing_to (state (click_next local_comp)) -
           showing_from (state (click_next local_comp)) + 1).
Proof.
  assert (Hr : rendered {| comp := click_next local_comp; phase := Settled |}).
  { apply reachable_rendered.
    eapply reachable_step; [apply reachable_local_comp|].
    apply step_next. vm_compute. reflexivity. }
  destruct (caption_counts_rows _ Hr) as [_ H]; [vm_compute; reflexivity|].
  exact (proj1 (H eq_refl)).
Defined.

Lemma nth_error_snoc {A : Type} (l : list A) (a : A) :
  nth_error (l ++ [a])%list (List.length l) = Some a.
Proof.
  induction l as [|x l IH]; [reflexivity | exact IH].
Qed.

(** X8.  A change of filters does not reset the offset: the request it
    sends is made for the offset the table was on, and when the new
    filtered result of local mode is no longer than that offset the table
    shows no rows, with the total of the new result and "next" disabled. *)
Theorem filter_change_keeps_offset
    (c : Comp) (f : option Filters.t) (text : string) (response : LogsResponse.t) :
  reachable c ->
  let c1 := change_filters f c in
  let c2 := deliver (List.length (inflight c)) (Ok text (Some response)) c1 in
  let filtered :=
    filter (fetchLogs_keep (filters_type f) (filters_severity f))
           (LogsResponse.logs response) in
  offset (state c1) = offset (state c) /\
  calls c1 = (calls c ++ [fetchLogs_params f (limit (state c)) (offset (state c))])%list /\
  offset (state c2) = offset (state c) /\
  (hasTypeOrSeverity f = true ->
   clientAll (state c2) = filtered /\
   total (state c2) = Z.of_nat (List.length filtered) /\
   (Z.of_nat (List.length filtered) <= offset (state c) ->
    logs (state c2) = [] /\ hasMore (state c2) = false)).
Proof.
  intros Hr c1 c2 filtered.
  destruct (reachable_limit_offset c Hr) as [Hlim [k Ho]].
  split; [reflexivity|]. split; [reflexivity|].
  split.
  - subst c2. destruct (deliver_keeps (List.length (inflight c))
                          (Ok text (Some response)) c1) as (_ & H & _).
    exact H.
  - intros Hf.
    set (cl := {| c_filters := f; c_limit := limit (state c);
                  c_offset := offset (state c) |}).
    assert (Hcl : hasTypeOrSeverity (c_filters cl) = true) by exact Hf.
    assert (E : state c2 =
                reslice (fetchLogs_settle cl (Ok text (Some response))
                           (fetchLogs_start (state c)))).
    { subst c2 c1. unfold deliver, change_filters, effect_fetch. cbn [inflight state].
      rewrite nth_error_snoc. cbn [state]. fold cl.
      now rewrite (fetchLogs_try_local cl text response _ Hcl). }
    rewrite E. unfold fetchLogs_settle.
    rewrite (fetchLogs_try_local cl text response _ Hcl). unfold reslice. cbn.
    fold filtered. split; [reflexivity|]. split; [reflexivity|].
    intros Hle. split; [now apply slice_beyond|].
    apply Z.ltb_ge. lia.
Qed.

Lemma filter_change_keeps_offset_witness :
  let c2 := deliver 1 (Ok body (Some (page scenario_logs 3 1000 0 false)))
              (change_filters pii_filters (click_next local_comp)) in
  offset (state c2) = 50 /\ total (state c2) = 1 /\ logs (state c2) = [].
Proof.
  cbv zeta.
  assert (Hr : reachable (click_next local_comp)).
  { eapply reachable_step; [apply reachable_local_comp|].
    apply step_next. vm_compute. reflexivity. }
  pose proof (filter_change_keeps_offset (click_next local_comp) pii_filters body
                (page scenario_logs 3 1000 0 false) Hr) as H.
  cbv zeta in H. destruct H as (_ & _ & Ho & H).
  destruct (H eq_refl) as (_ & Ht & Hb).
  split; [etransitivity; [exact Ho | vm_compute; reflexivity]|].
  split; [etransitivity; [exact Ht | vm_compute; reflexivity]|].
  apply Hb. vm_compute. discriminate.
Defined.

(* ------------------------------------------------------------------ *)
(** ** Outcomes of an export and of a failed fetch *)

(** X9.  [handleExport] ends in a download or in the alert [Failed to export
    logs], nothing else.  It downloads exactly when the reply is a success
    status whose body is JSON, or, for a CSV export without [type] and
    [severity], any success status; the file is named after the date and
    the format and has the media type of the format.  A client-side CSV
    export therefore fails on a body that is not JSON, although it asked
    for no CSV. *)
Theorem export_downloads_or_alerts
    (stringify : LogsResponse.t -> string) (now : string) (format : Format)
    (filters : option Filters.t) (reply : HttpReply) :
  match handleExport stringify now format filters reply with
  | Download filename blob =>
      export_succeeds format filters reply = true /\
      filename = "logs-" ++ iso_date now ++ extension format /\
      Blob.type blob = mime format
  | Alert message =>
      export_succeeds format filters reply = false /\
      message = "Failed to export logs"
  end.
Proof.
  unfold handleExport, handleExport_params, export_succeeds.
  destruct (hasTypeOrSeverity filters) eqn:E;
    destruct reply as [|text [response|]|status statusText [ | |detail]];
    destruct format; cbn; repeat split.
Qed.

(** X10.  A fetch that does not succeed (network failure, non-success
    status, or a success status whose body is not JSON) changes nothing but
    [error] and [loading]: the rows, the total, [has_more], the mode, the
    cache, the offset and the page size stay what they were. *)
Theorem failed_fetch_keeps_data
    (c : Comp) (n : nat) (cl : Closure) (reply : HttpReply) :
  nth_error (inflight c) n = Some cl ->
  match reply with Ok _ (Some _) => False | _ => True end ->
  let s := state c in
  let s' := state (deliver n reply c) in
  logs s' = logs s /\ total s' = total s /\ hasMore s' = hasMore s /\
  clientMode s' = clientMode s /\ clientAll s' = clientAll s /\
  offset s' = offset s /\ limit s' = limit s /\
  loading s' = false /\ error s' <> None.
Proof.
  intros Hn Hfail s s'.
  assert (Ht : exists e, fetchLogs_try cl reply s = Throw e).
  { unfold fetchLogs_try. rewrite getLogs_fetchLogs_params.
    destruct reply as [|text [response|]|status statusText [ | |detail]];
      [| contradiction | | | |]; simpl; eexists; reflexivity. }
  destruct Ht as [e Ht].
  subst s'. unfold deliver. rewrite Hn. cbn. unfold fetchLogs_settle.
  fold s. rewrite Ht. destruct e; cbn; repeat split; discriminate.
Qed.

Lemma failed_fetch_keeps_data_witness :
  logs (state (deliver 0 NetworkError (click_next local_comp))) =
  logs (state (click_next local_comp)).
Proof.
  refine (proj1 (failed_fetch_keeps_data (click_next local_comp) 0
                   {| c_filters := pii_filters; c_limit := 50; c_offset := 50 |}
                   NetworkError _ _)).
  - vm_compute. reflexivity.
  - exact I.
Defined.

(* ------------------------------------------------------------------ *)
(** ** What goes to the Remote Log Source *)

Lemma fetchLogs_params_shape (f : option Filters.t) (lim off : Z) :
  let p := fetchLogs_params f lim off in
  no_risk_filter p = true /\
  Params.format p = Some json /\
  (Params.limit p = Some lim \/ Params.limit p = Some 1000) /\
  Params.offset p <> None.
Proof.
  unfold fetchLogs_params. destruct (hasTypeOrSeverity f) eqn:E; cbv zeta.
  - repeat split; [now right | discriminate].
  - rewrite hasTypeOrSeverity_spec in E. apply orb_false_elim in E.
    destruct E as [Ht Hs]. unfold no_risk_filter.
    cbn [Params.type Params.severity Params.format Params.limit Params.offset].
    rewrite Ht, Hs. repeat split; [now left | discriminate].
Qed.

Lemma calls_effect_fetch (c : Comp) :
  calls (effect_fetch c) =
  (calls c ++ [fetchLogs_params (filters c) (limit (state c)) (offset (state c))])%list.
Proof. reflexivity. Qed.

(** X11.  No request ever carries a non-empty [type] or [severity]: every
    request the table has sent asks for JSON, for a page of 50 or for the
    ceiling of 1000, from a stated offset, without a risk filter, and the
    request of an export for the current filters carries none either. *)
Theorem no_risk_filter_sent (c : Comp) :
  reachable c ->
  Forall (fun p =>
            no_risk_filter p = true /\
            Params.format p = Some json /\
            (Params.limit p = Some 50 \/ Params.limit p = Some 1000) /\
            Params.offset p <> None)
         (calls c) /\
  (forall format,
     no_risk_filter (handleExport_params format (filters c)) = true /\
     Params.limit (handleExport_params format (filters c)) = Some 1000).
Proof.
  intros Hr. split.
  - induction Hr as [f | c c' Hc IH Hstep].
    + constructor; [|constructor]. apply (fetchLogs_params_shape f 50 0).
    + pose proof (reachable_limit_offset c Hc) as [Hlim _].
      assert (Hnew : forall g v,
                Forall (fun p =>
                          no_risk_filter p = true /\
                          Params.format p = Some json /\
                          (Params.limit p = Some 50 \/ Params.limit p = Some 1000) /\
                          Params.offset p <> None)
                       (calls c ++ [fetchLogs_params g (limit (state c)) v])%list).
      { intros g v. apply Forall_app. split; [exact IH|].
        constructor; [|constructor]. rewrite Hlim. apply fetchLogs_params_shape. }
      destruct Hstep as [c _ | c _ | c f | c n reply _].
      * unfold click_previous, click_setOffset.
        destruct (_ =? _); [exact IH|]. apply Hnew.
      * unfold click_next, click_setOffset.
        destruct (_ =? _); [exact IH|]. apply Hnew.
      * apply Hnew.
      * destruct (deliver_keeps n reply c) as (_ & _ & _ & ->). exact IH.
  - intros format. unfold handleExport_params, no_risk_filter.
    destruct (hasTypeOrSeverity (filters c)) eqn:E;
      cbn [Params.type Params.severity Params.limit]; [now split|].
    rewrite hasTypeOrSeverity_spec in E. apply orb_false_elim in E.
    destruct E as [-> ->]. now split.
Qed.

Lemma no_risk_filter_sent_witness :
  forallb no_risk_filter (calls (click_next local_comp)) = true.
Proof.
  assert (Hr : reachable (click_next local_comp)).
  { eapply reachable_step; [apply reachable_local_comp|].
    apply step_next. vm_compute. reflexivity. }
  destruct (no_risk_filter_sent (click_next local_comp) Hr) as [H _].
  apply forallb_forall. intros p Hp. rewrite Forall_forall in H.
  now destruct (H p Hp).
Defined.

Lemma append_not_empty (a : string) (x : ascii) (b : string) :
  a ++ String x b <> EmptyString.
Proof.
  destruct a; discriminate.
Qed.

(** X12.  [getLogs] turns every failure into a thrown error, for either
    format.  A network failure is thrown as an error that is not an
    [APIError].  For a non-success status the CSV format never reads the
    body and throws an [APIError] with the status code and the message
    [Failed to fetch logs: <status text>]; the JSON format throws a
    [TypeError] when the body is the JSON [null], and otherwise an
    [APIError] with the status code whose message is the body's [detail]
    converted to a string when that [detail] is truthy (which can be the
    empty string, as for [[]]), and [API request failed: <status text>] when
    it is not. *)
Theorem getLogs_failure_modes (p : Params.t) (reply : HttpReply) :
  is_failure reply = true ->
  exists e,
    getLogs p reply = Throw e /\
    match reply with
    | NotOk status statusText body =>
        (Params.format p = Some csv ->
         e = APIError ("Failed to fetch logs: " ++ statusText) status) /\
        (Params.format p <> Some csv ->
         match body with
         | BodyNull => e = OtherError
         | BodyNotJson =>
             e = APIError (js_or (Some (js_string statusText))
                                 ("API request failed: " ++ statusText)) status
         | BodyJson detail =>
             e = APIError (js_or detail ("API request failed: " ++ statusText)) status
         end)
    | _ => e = OtherError
    end.
Proof.
  intros Hf. destruct reply as [|text parsed|status statusText body];
    [|discriminate|].
  - exists OtherError. split; [|reflexivity].
    unfold getLogs. now destruct (Params.format p) as [[|]|].
  - unfold getLogs. destruct (Params.format p) as [[|]|] eqn:Ef.
    + destruct body as [ | |detail]; simpl; eexists;
        (split; [reflexivity|]); (split; [discriminate | reflexivity]).
    + eexists. split; [reflexivity|]. split; [reflexivity | congruence].
    + destruct body as [ | |detail]; simpl; eexists;
        (split; [reflexivity|]); (split; [discriminate | reflexivity]).
Qed.

Lemma getLogs_failure_modes_witness :
  exists e,
    getLogs (handleExport_params csv None)
      (NotOk 503 "Service Unavailable" (BodyJson (Some (js_string "database unavailable"))))
      = Throw e /\
    e = APIError "Failed to fetch logs: Service Unavailable" 503.
Proof.
  destruct (getLogs_failure_modes (handleExport_params csv None)
              (NotOk 503 "Service Unavailable"
                     (BodyJson (Some (js_string "database unavailable"))))
              eq_refl) as (e & He & Hcsv & _).
  exists e. split; [exact He|]. now apply Hcsv.
Defined.

(* ------------------------------------------------------------------ *)
(** ** The query string *)

Lemma In_entry (key : string) (value : option string) (k v : string) :
  In (k, v) (entry key value) <-> k = key /\ value = Some v.
Proof.
  unfold entry. destruct value as [w|]; simpl.
  - split.
    + intros [H|[]]. injection H as <- <-. now split.
    + intros [-> H]. injection H as ->. now left.
  - split; [tauto | intros [_ H]; discriminate].
Qed.

Lemma In_queryEntries (p : Params.t) (k v : string) :
  In (k, v) (queryEntries (Some p)) <->
  (k = "type" /\ Params.type p = Some v) \/
  (k = "severity" /\ Params.severity p = Some v) \/
  (k = "date_from" /\ Params.date_from p = Some v) \/
  (k = "date_to" /\ Params.date_to p = Some v) \/
  (k = "limit" /\ option_map String_of_number (Params.limit p) = Some v) \/
  (k = "offset" /\ option_map String_of_number (Params.offset p) = Some v) \/
  (k = "format" /\ option_map String_of_format (Params.format p) = Some v).
Proof.
  unfold queryEntries. now rewrite !in_app_iff, !In_entry.
Qed.

(** X13.  The query of the bulk request of local mode names no [type] and
    no [severity] at all; it has [limit=1000], [offset=0], [format=json],
    and the date bounds exactly when the filters define them, with the
    values as given. *)
Theorem bulk_request_query (f : option Filters.t) (lim off : Z) :
  hasTypeOrSeverity f = true ->
  let entries := queryEntries (Some (fetchLogs_params f lim off)) in
  (forall v, ~ In ("type", v) entries) /\
  (forall v, ~ In ("severity", v) entries) /\
  (forall v, In ("limit", v) entries <-> v = "1000") /\
  (forall v, In ("offset", v) entries <-> v = "0") /\
  (forall v, In ("format", v) entries <-> v = "json") /\
  (forall v, In ("date_from", v) entries <-> filters_date_from f = Some v) /\
  (forall v, In ("date_to", v) entries <-> filters_date_to f = Some v).
Proof.
  intros H entries. subst entries. rewrite (fetchLogs_params_local _ _ _ H).
  unfold bulk_params.
  split; [|split; [|split; [|split; [|split; [|split]]]]];
    intros v; rewrite In_queryEntries;
    cbn [Params.type Params.severity Params.date_from Params.date_to
         Params.limit Params.offset Params.format option_map String_of_format];
    change (String_of_number 1000) with "1000";
    change (String_of_number 0) with "0";
    intuition congruence.
Qed.

Lemma bulk_request_query_witness :
  In ("date_from", "2024-05-01") (queryEntries (Some (fetchLogs_params pii_filters 50 0))) /\
  ~ In ("type", "pii") (queryEntries (Some (fetchLogs_params pii_filters 50 0))).
Proof.
  destruct (bulk_request_query pii_filters 50 0 eq_refl) as (Ht & _ & _ & _ & _ & Hd & _).
  split; [now apply Hd | apply Ht].
Defined.

Lemma join_not_empty (sep x : string) (l : list string) :
  x <> EmptyString -> join sep (x :: l) <> EmptyString.
Proof.
  intros Hx. unfold join. simpl. destruct l; [exact Hx|].
  destruct x; [congruence | discriminate].
Qed.

(** X14.  Every request of the table and of an export goes to
    [/v1/logs?...] with a query that is not empty, since limit, offset and
    format are always given; called without parameters, [getLogs] asks for
    the bare [/v1/logs]. *)
Theorem endpoint_has_query (encode : string -> string) (f : option Filters.t)
    (lim off : Z) (format : Format) :
  (exists qs,
     qs <> EmptyString /\
     getLogs_endpoint encode (Some (fetchLogs_params f lim off)) = "/v1/logs?" ++ qs) /\
  (exists qs,
     qs <> EmptyString /\
     getLogs_endpoint encode (Some (handleExport_params format f)) = "/v1/logs?" ++ qs) /\
  getLogs_endpoint encode None = "/v1/logs".
Proof.
  assert (Hgen : forall p : Params.t,
            Params.format p <> None ->
            exists qs, qs <> EmptyString /\
              getLogs_endpoint encode (Some p) = "/v1/logs?" ++ qs).
  { intros p Hp. exists (queryString encode (queryEntries (Some p))).
    assert (Hne : queryString encode (queryEntries (Some p)) <> EmptyString).
    { unfold queryString. destruct (queryEntries (Some p)) as [|kv l] eqn:E.
      - exfalso. unfold queryEntries in E.
        destruct (Params.format p) as [fmt|]; [|congruence].
        repeat (apply app_eq_nil in E; destruct E as [_ E]). discriminate.
      - simpl map. apply join_not_empty. apply append_not_empty. }
    split; [exact Hne|].
    unfold getLogs_endpoint. cbv zeta. now rewrite (truthy_Some _ Hne). }
  split; [|split].
  - apply Hgen. unfold fetchLogs_params. destruct (hasTypeOrSeverity f); discriminate.
  - apply Hgen. unfold handleExport_params. destruct (hasTypeOrSeverity f); discriminate.
  - reflexivity.
Qed.

(* ------------------------------------------------------------------ *)
(** ** The decision badge and [login] *)

(** X15.  The badge is gray exactly for a decision that is none of
    [block], [redact], [warn], [allow] (spelled exactly so), and the four
    known decisions get four different colours. *)
Theorem decision_badge_colours :
  (forall d, getDecisionColor d = "bg-gray-100 text-gray-800" <-> ~ known_decision d) /\
  (forall d1 d2,
     known_decision d1 -> known_decision d2 ->
     getDecisionColor d1 = getDecisionColor d2 -> d1 = d2) /\
  getDecisionColor "Block" = "bg-gray-100 text-gray-800" /\
  getDecisionColor EmptyString = "bg-gray-100 text-gray-800".
Proof.
  split; [|split; [|split; reflexivity]].
  - intros d. unfold getDecisionColor, known_decision.
    destruct (String.eqb_spec d "block") as [->|N1];
      [split; [discriminate | intros H; exfalso; apply H; auto]|].
    destruct (String.eqb_spec d "redact") as [->|N2];
      [split; [discriminate | intros H; exfalso; apply H; auto]|].
    destruct (String.eqb_spec d "warn") as [->|N3];
      [split; [discriminate | intros H; exfalso; apply H; auto]|].
    destruct (String.eqb_spec d "allow") as [->|N4];
      [split; [discriminate | intros H; exfalso; apply H; auto]|].
    split; [|reflexivity]. intros _ [H|[H|[H|H]]]; congruence.
  - intros d1 d2 [-> | [-> | [-> | ->]]] [-> | [-> | [-> | ->]]] H;
      try reflexivity; vm_compute in H; discriminate H.
Qed.

(** X16.  [login] resolves to a token only for a success status whose body
    is JSON.  A non-success status is thrown as an [APIError] with that
    status code, unless the body is the JSON [null], for which reading
    [detail] throws a [TypeError]; the message is the body's [detail]
    converted to a string when that [detail] is truthy (the status text
    standing in for a body that is not JSON), and [Login failed: <status
    text>] when it is not.  A network failure or a success body that is not
    JSON is thrown as another kind of error. *)
Theorem login_outcomes (reply : LoginReply) :
  match login reply with
  | Return t => reply = LoginOk (Some t)
  | Throw (APIError m s) =>
      exists statusText body,
        reply = LoginNotOk s statusText body /\
        match body with
        | BodyNull => False
        | BodyNotJson =>
            m = js_or (Some (js_string statusText)) ("Login failed: " ++ statusText)
        | BodyJson detail => m = js_or detail ("Login failed: " ++ statusText)
        end
  | Throw OtherError =>
      reply = LoginNetworkError \/ reply = LoginOk None \/
      exists status statusText, reply = LoginNotOk status statusText BodyNull
  end.
Proof.
  destruct reply as [ | [t | ] | status statusText [ | |detail]]; simpl.
  - now left.
  - reflexivity.
  - right. now left.
  - exists statusText, BodyNotJson. now split.
  - right. right. now exists status, statusText.
  - exists statusText, (BodyJson detail). now split.
Qed.

(* ------------------------------------------------------------------ *)
(** ** Rows, and paging back and forth *)





(** X17.  In remote mode the reply's records reach the table unfiltered and
    unchecked: a record that comes without a risks array is put on screen,
    and its row throws when rendered, although the local filter and the CSV
    row accept such a record as one with no risks. *)
Theorem remote_row_without_risks_throws
    (toLocaleString : string -> string) (c : Comp) (n : nat) (cl : Closure)
    (text : string) (response : LogsResponse.t) (log : LogEntry) :
  nth_error (inflight c) n = Some cl ->
  hasTypeOrSeverity (c_filters cl) = false ->
  In log (LogsResponse.logs response) ->
  risks log = None ->
  In log (logs (state (deliver n (Ok text (Some response)) c))) /\
  render_row toLocaleString log = Throw OtherError /\
  fetchLogs_keep None None log = true /\
  risk_count log = "0".
Proof.
  intros Hn Hf Hin Hr. split; [|split; [|split]].
  - unfold deliver. rewrite Hn. unfold fetchLogs_settle.
    rewrite (fetchLogs_try_remote _ _ _ _ Hf). cbn. exact Hin.
  - unfold render_row. now rewrite Hr.
  - reflexivity.
  - unfold risk_count. now rewrite Hr.
Qed.

Lemma remote_row_without_risks_throws_witness :
  In log_with_comma
     (logs (state (deliver 0 (Ok body (Some (page [log_with_comma] 1 50 0 false)))
                     (mount None)))) /\
  render_row (fun t => t) log_with_comma = Throw OtherError.
Proof.
  destruct (remote_row_without_risks_throws (fun t => t) (mount None) 0
              {| c_filters := None; c_limit := 50; c_offset := 0 |}
              body (page [log_with_comma] 1 50 0 false) log_with_comma)
    as (H1 & H2 & _).
  - reflexivity.
  - reflexivity.
  - now left.
  - reflexivity.
  - split; [exact H1 | exact H2].
Defined.



Lemma limit_click_setOffset (v : Z) (c : Comp) :
  limit (state (click_setOffset v c)) = limit (state c).
Proof.
  unfold click_setOffset. destruct (_ =? _); [reflexivity|].
  cbn. now rewrite limit_reslice.
Qed.

(** X19.  Paging is reversible on the reachable states: "next" followed by
    "previous" comes back to the offset one started from, and so does
    "previous" followed by "next" except on the first page, where
    "previous" does nothing and "next" then moves one page on. *)
Theorem next_previous_round_trip (c : Comp) :
  reachable c ->
  offset (state (click_previous (click_next c))) = offset (state c) /\
  (0 < offset (state c) ->
   offset (state (click_next (click_previous c))) = offset (state c)) /\
  (offset (state c) = 0 ->
   click_previous c = c /\ offset (state (click_next (click_previous c))) = 50).
Proof.
  intros Hr. destruct (reachable_limit_offset c Hr) as [Hl [k Ho]].
  unfold click_previous, click_next.
  rewrite !offset_click_setOffset. unfold onPrevious, onNext.
  rewrite !offset_click_setOffset, !limit_click_setOffset. unfold onPrevious, onNext.
  rewrite Hl. split; [lia|]. split; [lia|].
  intros H0. split.
  - unfold click_setOffset. rewrite H0. reflexivity.
  - lia.
Qed.

Lemma next_previous_round_trip_witness :
  offset (state (click_previous (click_next local_comp))) = 0.
Proof.
  etransitivity;
    [exact (proj1 (next_previous_round_trip local_comp reachable_local_comp))
    | vm_compute; reflexivity].
Defined.

Lemma loading_reslice (s : State) : loading (reslice s) = loading s.
Proof.
  unfold reslice. now destruct (clientMode s).
Qed.

(** X20.  [loading] goes off at the first reply, whichever request it
    answers and whatever it says, even while other requests are still
    waiting for theirs. *)
Theorem loading_ends_at_first_reply (c : Comp) (n : nat) (reply : HttpReply) :
  (n < List.length (inflight c))%nat ->
  loading (state (deliver n reply c)) = false /\
  ((2 <= List.length (inflight c))%nat -> inflight (deliver n reply c) <> []).
Proof.
  intros Hn. unfold deliver.
  destruct (nth_error (inflight c) n) as [cl|] eqn:E;
    [|apply nth_error_None in E; lia].
  cbn. split.
  - unfold fetchLogs_settle.
    destruct (fetchLogs_try cl reply (state c)); [rewrite loading_reslice|]; reflexivity.
  - intros H2 Hnil. pose proof (length_remove_nth n (inflight c) Hn) as Hlen.
    rewrite Hnil in Hlen. simpl in Hlen. lia.
Qed.

Lemma loading_ends_at_first_reply_witness :
  loading (state (deliver 0 NetworkError (click_next (click_next local_comp)))) = false /\
  inflight (deliver 0 NetworkError (click_next (click_next local_comp))) <> [].
Proof.
  destruct (loading_ends_at_first_reply (click_next (click_next local_comp)) 0 NetworkError)
    as [Hl Hi].
  - vm_compute. lia.
  - split; [exact Hl|]. apply Hi. vm_compute. lia.
Defined.
